(** * gcurl: the curl command parser, embedded from [parse.go]

    The development follows the Go source function by function.  A Go
    [string] is a sequence of bytes: it is modelled by [string], whose
    characters are the 256 values of [ascii].  The header map is a
    [gmap string string].  The functions of the Go library that [Parse]
    calls are modelled after the library: package strings, base64, and
    the scanner, decoder and encoder of encoding/json.  Three things
    are left as section variables: the word splitter
    [shellwords.Parse], the Unicode case tables behind
    [strings.ToLower], and the conversions between number literals and
    [float64]. *)

From Stdlib Require Import ZArith NArith Ascii String List Bool Lia Sorted.
From stdpp Require Import base gmap strings.
Import ListNotations.

(** ** Bytes *)

Definition code (c : ascii) : N := N_of_ascii c.

Definition NL : ascii := ascii_of_N 10.
Definition nl : string := String NL "".

Definition bytes (s : string) : list ascii := list_ascii_of_string s.
Definition str (l : list ascii) : string := string_of_list_ascii l.

(** [asciiSpace] of package strings: tab, newline, vertical tab, form
    feed, carriage return and space. *)
Definition asciiSpace (c : ascii) : bool :=
  ((9 <=? code c) && (code c <=? 13) || (code c =? 32))%N.

(** [utf8.RuneSelf]: bytes below it are single-byte runes. *)
Definition is_ascii (c : ascii) : bool := (code c <? 128)%N.

Definition is_upper (c : ascii) : bool := ((65 <=? code c) && (code c <=? 90))%N.

Definition lower_byte (c : ascii) : ascii :=
  if is_upper c then ascii_of_N (code c + 32) else c.

(** ** Package strings *)

Fixpoint HasPrefix (s p : string) : bool :=
  match p, s with
  | EmptyString, _ => true
  | String a p', String b s' => Ascii.eqb a b && HasPrefix s' p'
  | String _ _, EmptyString => false
  end.

(** [strings.Index]: the byte offset of the first occurrence of [sub],
    or -1. *)
Fixpoint Index_from (i : Z) (s sub : string) : Z :=
  if HasPrefix s sub then i
  else match s with
       | EmptyString => (-1)%Z
       | String _ s' => Index_from (i + 1) s' sub
       end.

Definition Index (s sub : string) : Z := Index_from 0 s sub.

Definition Contains (s sub : string) : bool := (0 <=? Index s sub)%Z.

(** [strings.Cut]: the text before and after the first occurrence of
    the separator, and whether it occurs. *)
Fixpoint Cut_from (s sep : string) : option (string * string) :=
  if HasPrefix s sep then Some ("", substring (String.length sep) (String.length s - String.length sep) s)
  else match s with
       | EmptyString => None
       | String c s' =>
           match Cut_from s' sep with
           | Some (before, after) => Some (String c before, after)
           | None => None
           end
       end.

Definition Cut (s sep : string) : string * string * bool :=
  match Cut_from s sep with
  | Some (before, after) => (before, after, true)
  | None => (s, "", false)
  end.

(** [strings.ReplaceAll] for a separator of one byte or more: the
    occurrences are found left to right and do not overlap; [skip]
    counts the bytes of the current occurrence still to be passed. *)
Fixpoint ReplaceAll_skip (skip : nat) (s old new : string) : string :=
  match s with
  | EmptyString => ""
  | String c s' =>
      match skip with
      | S k => ReplaceAll_skip k s' old new
      | O =>
          if HasPrefix s old
          then new +:+ ReplaceAll_skip (String.length old - 1) s' old new
          else String c (ReplaceAll_skip 0 s' old new)
      end
  end.

Definition ReplaceAll (s old new : string) : string := ReplaceAll_skip 0 s old new.

(** *** TrimSpace

    [strings.TrimSpace] removes the leading and trailing runes that
    [unicode.IsSpace] accepts.  Below 128 these are the six bytes of
    [asciiSpace]; above, U+0085, U+00A0, U+1680, U+2000..U+200A, U+2028,
    U+2029, U+202F, U+205F and U+3000, recognised here by their UTF-8
    encodings. *)
Definition space_rune (l : list N) : bool :=
  match l with
  | [c] => ((9 <=? c) && (c <=? 13) || (c =? 32))%N
  | [a; b] => ((a =? 0xC2) && ((b =? 0x85) || (b =? 0xA0)))%N
  | [a; b; c] =>
      ((a =? 0xE1) && (b =? 0x9A) && (c =? 0x80)
       || (a =? 0xE2) && (b =? 0x80) &&
            ((0x80 <=? c) && (c <=? 0x8A) || (c =? 0xA8) || (c =? 0xA9) || (c =? 0xAF))
       || (a =? 0xE2) && (b =? 0x81) && (c =? 0x9F)
       || (a =? 0xE3) && (b =? 0x80) && (c =? 0x80))%N
  | _ => false
  end.

(** The byte length of the white-space rune that starts [l], 0 if
    there is none. *)
Definition space_prefix (l : list ascii) : nat :=
  if space_rune (map code (firstn 1 l)) then 1
  else if space_rune (map code (firstn 2 l)) then 2
  else if space_rune (map code (firstn 3 l)) then 3
  else 0.

(** The same for the rune that ends the sequence, given reversed. *)
Definition space_suffix (r : list ascii) : nat :=
  if space_rune (map code (rev (firstn 1 r))) then 1
  else if space_rune (map code (rev (firstn 2 r))) then 2
  else if space_rune (map code (rev (firstn 3 r))) then 3
  else 0.

Fixpoint strip (width : list ascii -> nat) (fuel : nat) (l : list ascii) : list ascii :=
  match fuel with
  | O => l
  | S fuel' =>
      match width l with
      | O => l
      | n => strip width fuel' (skipn n l)
      end
  end.

Definition trim_left (l : list ascii) : list ascii := strip space_prefix (List.length l) l.
Definition trim_right (l : list ascii) : list ascii :=
  rev (strip space_suffix (List.length l) (rev l)).

Definition TrimLeftSpace (s : string) : string := str (trim_left (bytes s)).
Definition TrimSpace (s : string) : string := str (trim_right (trim_left (bytes s))).

(** ** Package encoding/base64: [StdEncoding.EncodeToString] *)

Definition b64_alphabet : string :=
  "ABCDEFGHIJKLMNOPQRSTUVWXYZabcdefghijklmnopqrstuvwxyz0123456789+/".

Definition b64_char (n : N) : ascii :=
  match String.get (N.to_nat n) b64_alphabet with
  | Some c => c
  | None => "="%char
  end.

Fixpoint b64_encode (l : list N) : list ascii :=
  match l with
  | [] => []
  | [a] =>
      [b64_char (a / 4); b64_char ((a mod 4) * 16); "="%char; "="%char]
  | [a; b] =>
      [b64_char (a / 4); b64_char ((a mod 4) * 16 + b / 16);
       b64_char ((b mod 16) * 4); "="%char]
  | a :: b :: c :: rest =>
      b64_char (a / 4) :: b64_char ((a mod 4) * 16 + b / 16)
        :: b64_char ((b mod 16) * 4 + c / 64) :: b64_char (c mod 64)
        :: b64_encode rest
  end%N.

Definition EncodeToString (s : string) : string := str (b64_encode (map code (bytes s))).

(** ** The request descriptor *)

(** [type Header map[string]string]. *)
Abbreviation HeaderMap := (gmap string string).

Record Request := mkRequest {
  Method : string;
  URL : string;
  Header : HeaderMap;
  Body : string;
  SkipTLS : bool;
  Timeout : string
}.

Definition KeyContentType : string := "content-type".
Definition KeyUserAgent : string := "user-agent".
Definition KeyCookie : string := "cookie".
Definition KeyAuthorization : string := "authorization".
Definition ContentTypeJSON : string := "application/json".
Definition ContentTypeForm : string := "application/x-www-form-urlencoded".

Definition MethodGet : string := "GET".
Definition MethodHead : string := "HEAD".
Definition MethodPost : string := "POST".

(** A Go map read [m[k]] yields the zero value for an absent key. *)
Definition index_or_zero (m : HeaderMap) (k : string) : string := default "" (m !! k).

Definition set_Method (v : string) (r : Request) : Request :=
  mkRequest v (URL r) (Header r) (Body r) (SkipTLS r) (Timeout r).
Definition set_URL (v : string) (r : Request) : Request :=
  mkRequest (Method r) v (Header r) (Body r) (SkipTLS r) (Timeout r).
Definition set_Header (k v : string) (r : Request) : Request :=
  mkRequest (Method r) (URL r) (<[k:=v]> (Header r)) (Body r) (SkipTLS r) (Timeout r).
Definition set_Body (v : string) (r : Request) : Request :=
  mkRequest (Method r) (URL r) (Header r) v (SkipTLS r) (Timeout r).
Definition set_SkipTLS (v : bool) (r : Request) : Request :=
  mkRequest (Method r) (URL r) (Header r) (Body r) v (Timeout r).
Definition set_Timeout (v : string) (r : Request) : Request :=
  mkRequest (Method r) (URL r) (Header r) (Body r) (SkipTLS r) v.

(** The local variable [argType] of [Parse] only ever holds one of
    eight string constants; [NoArg] is the empty string. *)
Inductive argType :=
  | NoArg | ArgUserAgent | ArgHeader | ArgData | ArgUser | ArgMethod | ArgCookie | ArgTimeout.

(** [isURL]: the regular expression [^https?://.*$].  A dot of Go's
    regexp matches any character but the newline, and the dollar only
    the end of the text, so nothing after the scheme may be a newline. *)
Definition isURL (u : string) : bool :=
  (HasPrefix u "http://" || HasPrefix u "https://") && negb (Contains u nl).

(** [arg == a || arg == b]. *)
Definition is_flag (arg a b : string) : bool := String.eqb arg a || String.eqb arg b.

Definition is_data_flag (arg : string) : bool :=
  String.eqb arg "-d" || String.eqb arg "--data"
  || String.eqb arg "--data-ascii" || String.eqb arg "--data-raw".

(** The guards of the nine flag cases of the outer [switch], and the
    words that reach its [default] case. *)
Definition is_option (arg : string) : bool :=
  is_flag arg "-A" "--user-agent" || is_flag arg "-H" "--header" || is_data_flag arg
  || is_flag arg "-u" "--user" || is_flag arg "-I" "--head" || is_flag arg "-X" "--request"
  || is_flag arg "-b" "--cookie" || is_flag arg "-k" "--insecure"
  || is_flag arg "-m" "--max-time".

Definition payload (arg : string) : bool := negb (isURL arg) && negb (is_option arg).

(** The flags that take a value, with the [argType] they set. *)
Definition flag_kind (arg : string) : option argType :=
  if is_flag arg "-A" "--user-agent" then Some ArgUserAgent
  else if is_flag arg "-H" "--header" then Some ArgHeader
  else if is_data_flag arg then Some ArgData
  else if is_flag arg "-u" "--user" then Some ArgUser
  else if is_flag arg "-I" "--head" then None
  else if is_flag arg "-X" "--request" then Some ArgMethod
  else if is_flag arg "-b" "--cookie" then Some ArgCookie
  else if is_flag arg "-k" "--insecure" then None
  else if is_flag arg "-m" "--max-time" then Some ArgTimeout
  else None.

Section Machine.

(** [strings.Map(unicode.ToLower, s)], which [strings.ToLower] falls
    back to when [s] has a byte outside ASCII. *)
Variable unicode_ToLower : string -> string.

Definition ToLower (s : string) : string :=
  if forallb is_ascii (bytes s) then str (map lower_byte (bytes s))
  else unicode_ToLower s.

(** The payload cases of the inner [switch argType]. *)
Definition consume (t : argType) (arg : string) (req : Request) : Request :=
  match t with
  | ArgHeader =>
      let '(key, val, _) := Cut arg ":" in
      set_Header (ToLower key) (TrimSpace val) req
  | ArgUserAgent => set_Header KeyUserAgent arg req
  | ArgData =>
      let req :=
        if String.eqb (Method req) MethodGet || String.eqb (Method req) MethodHead
        then set_Method MethodPost req else req in
      let req :=
        match Header req !! KeyContentType with
        | Some _ => req
        | None => set_Header KeyContentType ContentTypeForm req
        end in
      if (String.length (Body req) =? 0)%nat
      then set_Body arg req
      else set_Body (Body req +:+ "&" +:+ arg) req
  | ArgUser => set_Header KeyAuthorization ("Basic " +:+ EncodeToString arg) req
  | ArgMethod => set_Method arg req
  | ArgCookie => set_Header KeyCookie arg req
  | ArgTimeout => set_Timeout arg req
  | NoArg => req
  end.

(** One iteration of the loop over [args]: the outer [switch]. *)
Definition step (st : Request * argType) (arg : string) : Request * argType :=
  let '(req, t) := st in
  if isURL arg then (set_URL arg req, t)
  else if is_flag arg "-A" "--user-agent" then (req, ArgUserAgent)
  else if is_flag arg "-H" "--header" then (req, ArgHeader)
  else if is_data_flag arg then (req, ArgData)
  else if is_flag arg "-u" "--user" then (req, ArgUser)
  else if is_flag arg "-I" "--head" then (set_Method "HEAD" req, t)
  else if is_flag arg "-X" "--request" then (req, ArgMethod)
  else if is_flag arg "-b" "--cookie" then (req, ArgCookie)
  else if is_flag arg "-k" "--insecure" then (set_SkipTLS true req, t)
  else if is_flag arg "-m" "--max-time" then (req, ArgTimeout)
  else match t with
       | NoArg => (req, NoArg)
       | _ => (consume t arg req, NoArg)
       end.

Definition new_request : Request := mkRequest MethodGet "" ∅ "" false "".

Definition loop (args : list string) (st : Request * argType) : Request * argType :=
  fold_left step args st.

End Machine.

(** [sanitize]: the slices [arg[0:2]] and [arg[2:]] are taken only
    under the guard [len(arg) > 2]. *)
Fixpoint sanitize (args : list string) : list string :=
  match args with
  | [] => []
  | arg :: rest =>
      let arg := TrimSpace arg in
      if String.eqb arg nl then sanitize rest
      else
        let arg := if Contains arg nl then ReplaceAll arg nl "" else arg in
        if HasPrefix arg "-X" && (2 <? String.length arg)%nat
        then substring 0 2 arg :: substring 2 (String.length arg - 2) arg :: sanitize rest
        else arg :: sanitize rest
  end.

(** ** Package encoding/json

    [json.Unmarshal] into a [map[string]interface{}] and
    [Encoder.Encode] with [SetEscapeHTML(false)], after the package's
    scanner, decoder and encoder.  A JSON number becomes a [float64]:
    the type and its two conversions, [strconv.ParseFloat] and the
    encoder's float formatting, are variables of the section. *)
Module Json.

Definition quote : ascii := ascii_of_N 34.
Definition backslash : ascii := ascii_of_N 92.

Definition in_range (lo hi : N) (c : ascii) : bool := ((lo <=? code c) && (code c <=? hi))%N.
Definition is_digit : ascii -> bool := in_range 48 57.
Definition is_hex (c : ascii) : bool := is_digit c || in_range 97 102 c || in_range 65 70 c.

(** The scanner's [isSpace]. *)
Definition isSpace (c : ascii) : bool :=
  ((code c =? 32) || (code c =? 9) || (code c =? 13) || (code c =? 10))%N.

(** [utf8.DecodeRune], as far as its width: the number of bytes of the
    well-formed rune that starts [l], and 0 where Go yields
    [(RuneError, 1)] (or the input is empty). *)
Definition rune_len (l : list ascii) : nat :=
  match l with
  | [] => 0
  | p0 :: t =>
      let cont := in_range 0x80 0xBF in
      let c := code p0 in
      if (c <? 0x80)%N then 1
      else if (c <? 0xC2)%N then 0
      else if (c <? 0xE0)%N then
        match t with
        | b1 :: _ => if cont b1 then 2 else 0
        | _ => 0
        end
      else if (c <? 0xF0)%N then
        match t with
        | b1 :: b2 :: _ =>
            let ok1 := if (c =? 0xE0)%N then in_range 0xA0 0xBF b1
                       else if (c =? 0xED)%N then in_range 0x80 0x9F b1
                       else cont b1 in
            if ok1 && cont b2 then 3 else 0
        | _ => 0
        end
      else if (c <? 0xF5)%N then
        match t with
        | b1 :: b2 :: b3 :: _ =>
            let ok1 := if (c =? 0xF0)%N then in_range 0x90 0xBF b1
                       else if (c =? 0xF4)%N then in_range 0x80 0x8F b1
                       else cont b1 in
            if ok1 && cont b2 && cont b3 then 4 else 0
        | _ => 0
        end
      else 0
  end.

(** [utf8.EncodeRune] (surrogates and values above U+10FFFF give the
    encoding of U+FFFD). *)
Definition replacement : list ascii := map ascii_of_N [0xEF; 0xBF; 0xBD]%N.

Definition EncodeRune (r : N) : list ascii :=
  (if r <? 0x80 then [ascii_of_N r]
   else if r <? 0x800 then map ascii_of_N [0xC0 + r / 64; 0x80 + r mod 64]
   else if (0xD800 <=? r) && (r <? 0xE000) || (0x10FFFF <? r) then replacement
   else if r <? 0x10000 then
     map ascii_of_N [0xE0 + r / 4096; 0x80 + (r / 64) mod 64; 0x80 + r mod 64]
   else
     map ascii_of_N [0xF0 + r / 262144; 0x80 + (r / 4096) mod 64;
                     0x80 + (r / 64) mod 64; 0x80 + r mod 64])%N.

Definition hex_val (c : ascii) : N :=
  (if is_digit c then code c - 48
   else if in_range 97 102 c then code c - 87
   else code c - 55)%N.

(** [getu4]: the value of four hexadecimal digits. *)
Definition u4 (a b c d : ascii) : option N :=
  if is_hex a && is_hex b && is_hex c && is_hex d
  then Some (hex_val a * 4096 + hex_val b * 256 + hex_val c * 16 + hex_val d)%N
  else None.

Definition is_surrogate (r : N) : bool := ((0xD800 <=? r) && (r <? 0xE000))%N.

(** [utf16.DecodeRune]. *)
Definition utf16_pair (r1 r2 : N) : option N :=
  (if (0xD800 <=? r1) && (r1 <? 0xDC00) && (0xDC00 <=? r2) && (r2 <? 0xE000)
   then Some ((r1 - 0xD800) * 1024 + (r2 - 0xDC00) + 0x10000)
   else None)%N.

(** The low half of a surrogate pair, when the text goes on with a
    second [\u] escape. *)
Definition next_u4 (l : list ascii) : option N :=
  match l with
  | b :: u :: a2 :: b2 :: c2 :: d2 :: _ =>
      if Ascii.eqb b backslash && Ascii.eqb u "u" then u4 a2 b2 c2 d2 else None
  | _ => None
  end.

(** [unquote]: the text of a string literal, given what stands between
    its quotes.  [keep] counts the remaining bytes of a well-formed
    multi-byte rune, which are copied; [drop] the bytes of an escape
    already decoded.  [None] is the scanner's syntax error. *)
Fixpoint unquote (keep drop : nat) (l : list ascii) : option (list ascii) :=
  match l with
  | [] => Some []
  | c :: r =>
      match drop, keep with
      | S d, _ => unquote keep d r
      | O, S k => option_map (cons c) (unquote k 0 r)
      | O, O =>
          if Ascii.eqb c backslash then
            match r with
            | e :: r' =>
                let simple (x : N) := option_map (cons (ascii_of_N x)) (unquote 0 1 r) in
                if Ascii.eqb e quote then simple 34%N
                else if Ascii.eqb e backslash then simple 92%N
                else if Ascii.eqb e "/" then simple 47%N
                else if Ascii.eqb e "b" then simple 8%N
                else if Ascii.eqb e "f" then simple 12%N
                else if Ascii.eqb e "n" then simple 10%N
                else if Ascii.eqb e "r" then simple 13%N
                else if Ascii.eqb e "t" then simple 9%N
                else if Ascii.eqb e "u" then
                  match r' with
                  | a :: b :: c' :: d :: r'' =>
                      match u4 a b c' d with
                      | None => None
                      | Some rr =>
                          if is_surrogate rr then
                            match next_u4 r'' with
                            | Some rr1 =>
                                match utf16_pair rr rr1 with
                                | Some dec => option_map (app (EncodeRune dec)) (unquote 0 11 r)
                                | None => option_map (app replacement) (unquote 0 5 r)
                                end
                            | None => option_map (app replacement) (unquote 0 5 r)
                            end
                          else option_map (app (EncodeRune rr)) (unquote 0 5 r)
                      end
                  | _ => None
                  end
                else None
            | [] => None
            end
          else if Ascii.eqb c quote || (code c <? 32)%N then None
          else if (code c <? 128)%N then option_map (cons c) (unquote 0 0 r)
          else
            match rune_len l with
            | O => option_map (app replacement) (unquote 0 0 r)
            | S k => option_map (cons c) (unquote k 0 r)
            end
      end
  end.

(** The scanner's number grammar: an optional minus sign; a zero, or
    a digit from 1 to 9 and any digits; optionally a dot and one digit
    or more; optionally an [e] or [E], a sign and one digit or more. *)
Fixpoint digits (l : list ascii) : list ascii :=
  match l with
  | c :: r => if is_digit c then digits r else l
  | [] => []
  end.

Definition digits1 (l : list ascii) : option (list ascii) :=
  match l with
  | c :: r => if is_digit c then Some (digits r) else None
  | [] => None
  end.

Definition valid_exp (l : list ascii) : bool :=
  match l with
  | [] => true
  | e :: r =>
      if Ascii.eqb e "e" || Ascii.eqb e "E" then
        let r := match r with
                 | s :: r' => if Ascii.eqb s "+" || Ascii.eqb s "-" then r' else r
                 | [] => r
                 end in
        match digits1 r with Some [] => true | _ => false end
      else false
  end.

Definition valid_frac (l : list ascii) : bool :=
  match l with
  | c :: r =>
      if Ascii.eqb c "." then
        match digits1 r with Some r' => valid_exp r' | None => false end
      else valid_exp l
  | [] => true
  end.

Definition valid_number (l : list ascii) : bool :=
  let l := match l with
           | c :: r => if Ascii.eqb c "-" then r else l
           | [] => l
           end in
  match l with
  | c :: r =>
      if Ascii.eqb c "0" then valid_frac r
      else if is_digit c then valid_frac (digits r)
      else false
  | [] => false
  end.

(** *** Tokens *)

Inductive token :=
  | TBeginObject | TEndObject | TBeginArray | TEndArray | TColon | TComma
  | TString (s : string) | TNumber (lit : string) | TTrue | TFalse | TNull.

Definition mk_string (raw_rev : list ascii) : option token :=
  option_map (fun s => TString (str s)) (unquote 0 0 (rev raw_rev)).

Definition mk_number (raw_rev : list ascii) : option token :=
  let lit := rev raw_rev in
  if valid_number lit then Some (TNumber (str lit)) else None.

Definition mk_word (raw_rev : list ascii) : option token :=
  let w := str (rev raw_rev) in
  if String.eqb w "true" then Some TTrue
  else if String.eqb w "false" then Some TFalse
  else if String.eqb w "null" then Some TNull
  else None.

Definition is_number_byte (c : ascii) : bool :=
  is_digit c || Ascii.eqb c "-" || Ascii.eqb c "+" || Ascii.eqb c "."
  || Ascii.eqb c "e" || Ascii.eqb c "E".

Definition is_word_byte : ascii -> bool := in_range 97 122.

Inductive lexmode :=
  | LOut
  | LStr (raw_rev : list ascii) (esc : bool)
  | LNum (raw_rev : list ascii)
  | LWord (raw_rev : list ascii).

(** What a byte does between two tokens. *)
Inductive action := Skip | Emit (t : token) | Start (m : lexmode) | Reject.

Definition between (c : ascii) : action :=
  if isSpace c then Skip
  else if Ascii.eqb c "{" then Emit TBeginObject
  else if Ascii.eqb c "}" then Emit TEndObject
  else if Ascii.eqb c "[" then Emit TBeginArray
  else if Ascii.eqb c "]" then Emit TEndArray
  else if Ascii.eqb c ":" then Emit TColon
  else if Ascii.eqb c "," then Emit TComma
  else if Ascii.eqb c quote then Start (LStr [] false)
  else if is_digit c || Ascii.eqb c "-" then Start (LNum [c])
  else if is_word_byte c then Start (LWord [c])
  else Reject.

Definition emit (t : option token) (rest : option (list token)) : option (list token) :=
  match t, rest with
  | Some t, Some ts => Some (t :: ts)
  | _, _ => None
  end.

Fixpoint lex (m : lexmode) (l : list ascii) : option (list token) :=
  match l with
  | [] =>
      match m with
      | LOut => Some []
      | LStr _ _ => None
      | LNum raw => emit (mk_number raw) (Some [])
      | LWord raw => emit (mk_word raw) (Some [])
      end
  | c :: r =>
      let after (t : option token) :=
        match between c with
        | Skip => emit t (lex LOut r)
        | Emit t' => emit t (emit (Some t') (lex LOut r))
        | Start m' => emit t (lex m' r)
        | Reject => None
        end in
      match m with
      | LOut =>
          match between c with
          | Skip => lex LOut r
          | Emit t' => emit (Some t') (lex LOut r)
          | Start m' => lex m' r
          | Reject => None
          end
      | LStr raw true => lex (LStr (c :: raw) false) r
      | LStr raw false =>
          if Ascii.eqb c backslash then lex (LStr (c :: raw) true) r
          else if Ascii.eqb c quote then emit (mk_string raw) (lex LOut r)
          else lex (LStr (c :: raw) false) r
      | LNum raw =>
          if is_number_byte c then lex (LNum (c :: raw)) r else after (mk_number raw)
      | LWord raw =>
          if is_word_byte c then lex (LWord (c :: raw)) r else after (mk_word raw)
      end
  end.

(** *** Syntax trees *)

#[local] Unset Elimination Schemes.

Inductive syntax :=
  | SNull
  | SBool (b : bool)
  | SNumber (lit : string)
  | SString (s : string)
  | SArray (elems : list syntax)
  | SObject (members : list (string * syntax)).

#[local] Set Elimination Schemes.

(** What encloses the position of the scanner: an array with the
    elements read so far, or an object with its members and the key
    whose value is being read (both lists in reverse). *)
Inductive ctx :=
  | CArr (acc : list syntax)
  | CObj (acc : list (string * syntax)) (key : option string).

(** The states of the scanner, named after its step functions. *)
Inductive pmode :=
  | BeginValue | BeginValueOrEmpty | BeginString | BeginStringOrEmpty
  | EndKey | EndValue | EndTop (v : syntax).

(** A value is complete: it goes to the enclosing array or object. *)
Definition push (v : syntax) (stack : list ctx) : option (pmode * list ctx) :=
  match stack with
  | [] => Some (EndTop v, [])
  | CArr acc :: st => Some (EndValue, CArr (v :: acc) :: st)
  | CObj acc (Some k) :: st => Some (EndValue, CObj ((k, v) :: acc) None :: st)
  | CObj _ None :: _ => None
  end.

Definition value_of_token (t : token) : option syntax :=
  match t with
  | TString s => Some (SString s)
  | TNumber lit => Some (SNumber lit)
  | TTrue => Some (SBool true)
  | TFalse => Some (SBool false)
  | TNull => Some SNull
  | _ => None
  end.

(** [maxNestingDepth]: the scanner refuses to open an array or an
    object inside 10000 others. *)
Definition can_nest (stack : list ctx) : bool := (N.of_nat (List.length stack) <? 10000)%N.

Definition pstep (m : pmode) (stack : list ctx) (t : token) : option (pmode * list ctx) :=
  let begin_value :=
    match t with
    | TBeginArray =>
        if can_nest stack then Some (BeginValueOrEmpty, CArr [] :: stack) else None
    | TBeginObject =>
        if can_nest stack then Some (BeginStringOrEmpty, CObj [] None :: stack) else None
    | _ => match value_of_token t with Some v => push v stack | None => None end
    end in
  let close_array :=
    match stack with
    | CArr acc :: st => push (SArray (rev acc)) st
    | _ => None
    end in
  let close_object :=
    match stack with
    | CObj acc None :: st => push (SObject (rev acc)) st
    | _ => None
    end in
  let key :=
    match t, stack with
    | TString k, CObj acc None :: st => Some (EndKey, CObj acc (Some k) :: st)
    | _, _ => None
    end in
  match m with
  | BeginValue => begin_value
  | BeginValueOrEmpty => match t with TEndArray => close_array | _ => begin_value end
  | BeginString => key
  | BeginStringOrEmpty => match t with TEndObject => close_object | _ => key end
  | EndKey => match t with TColon => Some (BeginValue, stack) | _ => None end
  | EndValue =>
      match t, stack with
      | TComma, CArr _ :: _ => Some (BeginValue, stack)
      | TComma, CObj _ None :: _ => Some (BeginString, stack)
      | TEndArray, _ => close_array
      | TEndObject, _ => close_object
      | _, _ => None
      end
  | EndTop _ => None
  end.

Fixpoint parse (m : pmode) (stack : list ctx) (ts : list token) : option syntax :=
  match ts with
  | [] => match m with EndTop v => Some v | _ => None end
  | t :: r =>
      match pstep m stack t with
      | Some (m', stack') => parse m' stack' r
      | None => None
      end
  end.

(** [checkValid] and the tree of the text. *)
Definition scan (s : string) : option syntax :=
  match lex LOut (bytes s) with
  | Some ts => parse BeginValue [] ts
  | None => None
  end.

Inductive error :=
  | SyntaxError
  | UnmarshalTypeError (what : string).

Section Values.

Variable float64 : Type.
Variable ParseFloat : string -> option float64.
Variable FormatFloat : float64 -> string.

(** What the decoder stores in an [interface{}].  A map is kept as the
    list of its entries in increasing key order, the order in which the
    encoder writes them. *)
#[local] Unset Elimination Schemes.

Inductive value :=
  | Nil
  | Bool (b : bool)
  | Float64 (f : float64)
  | Str (s : string)
  | Slice (elems : list value)
  | Map (entries : list (string * value)).

#[local] Set Elimination Schemes.


(** [m[k] = v]. *)
Fixpoint put (k : string) (v : value) (m : list (string * value)) : list (string * value) :=
  match m with
  | [] => [(k, v)]
  | (k', v') :: r =>
      match String.compare k k' with
      | Lt => (k, v) :: m
      | Eq => (k, v) :: r
      | Gt => (k', v') :: put k v r
      end
  end.

(** [valueInterface].  A number out of the range of [float64] makes
    [convertNumber] fail; the decoder keeps the first such failure and
    reports it at the end ([inl], with the literal). *)
Fixpoint toAny (j : syntax) : string + value :=
  match j with
  | SNull => inr Nil
  | SBool b => inr (Bool b)
  | SNumber lit =>
      match ParseFloat lit with
      | Some f => inr (Float64 f)
      | None => inl lit
      end
  | SString s => inr (Str s)
  | SArray elems =>
      match
        (fix all (l : list syntax) : string + list value :=
           match l with
           | [] => inr []
           | x :: r =>
               match toAny x with
               | inl lit => inl lit
               | inr v =>
                   match all r with
                   | inl lit => inl lit
                   | inr vs => inr (v :: vs)
                   end
               end
           end) elems
      with
      | inl lit => inl lit
      | inr vs => inr (Slice vs)
      end
  | SObject members =>
      match
        (fix all (l : list (string * syntax)) (m : list (string * value))
           : string + list (string * value) :=
           match l with
           | [] => inr m
           | (k, x) :: r =>
               match toAny x with
               | inl lit => inl lit
               | inr v => all r (put k v m)
               end
           end) members []
      with
      | inl lit => inl lit
      | inr m => inr (Map m)
      end
  end.

(** [Unmarshal(data, &m)] for [m] of type [map[string]interface{}]:
    an object fills the map; [null] sets it to nil ([None] here) and is
    no error, as the documentation of [Unmarshal] has it ("the JSON
    null value unmarshals into an interface, map, pointer, or slice by
    setting that Go value to nil"); any other value is a type error.
    The error of [convertNumber] has the value "number " followed by
    the literal.  (An object always yields a map: the last case of the
    inner [match] is never taken.) *)
Definition Unmarshal (data : string) : error + option (list (string * value)) :=
  match scan data with
  | None => inl SyntaxError
  | Some SNull => inr None
  | Some (SObject members) =>
      match toAny (SObject members) with
      | inr (Map m) => inr (Some m)
      | inl lit => inl (UnmarshalTypeError ("number " +:+ lit))
      | inr _ => inl (UnmarshalTypeError "object")
      end
  | Some (SArray _) => inl (UnmarshalTypeError "array")
  | Some (SString _) => inl (UnmarshalTypeError "string")
  | Some (SNumber _) => inl (UnmarshalTypeError "number")
  | Some (SBool _) => inl (UnmarshalTypeError "bool")
  end.

(** *** The encoder *)

Definition hex_digit (n : N) : ascii :=
  match String.get (N.to_nat n) "0123456789abcdef" with
  | Some c => c
  | None => "0"%char
  end.

(** The bytes of [safeSet]: printable ASCII but the quote and the
    backslash. *)
Definition safe (c : ascii) : bool :=
  (32 <=? code c)%N && (code c <? 128)%N
  && negb (Ascii.eqb c quote) && negb (Ascii.eqb c backslash).

(** U+2028 and U+2029, the line and paragraph separators, which the
    encoder always escapes: the last digit of the escape. *)
Definition is_line_sep (l : list ascii) : option ascii :=
  match l with
  | a :: b :: c :: _ =>
      if ((code a =? 0xE2) && (code b =? 0x80))%N then
        if (code c =? 0xA8)%N then Some "8"%char
        else if (code c =? 0xA9)%N then Some "9"%char
        else None
      else None
  | _ => None
  end.

(** The body of [appendString] with [escapeHTML] false. *)
Fixpoint escape (keep drop : nat) (l : list ascii) : list ascii :=
  match l with
  | [] => []
  | c :: r =>
      match drop, keep with
      | S d, _ => escape keep d r
      | O, S k => c :: escape k 0 r
      | O, O =>
          if (code c <? 128)%N then
            if safe c then c :: escape 0 0 r
            else if Ascii.eqb c backslash || Ascii.eqb c quote then backslash :: c :: escape 0 0 r
            else if (code c =? 8)%N then backslash :: "b"%char :: escape 0 0 r
            else if (code c =? 12)%N then backslash :: "f"%char :: escape 0 0 r
            else if (code c =? 10)%N then backslash :: "n"%char :: escape 0 0 r
            else if (code c =? 13)%N then backslash :: "r"%char :: escape 0 0 r
            else if (code c =? 9)%N then backslash :: "t"%char :: escape 0 0 r
            else backslash :: "u"%char :: "0"%char :: "0"%char
                   :: hex_digit (code c / 16) :: hex_digit (code c mod 16) :: escape 0 0 r
          else
            match rune_len l with
            | O => backslash :: bytes "ufffd" ++ escape 0 0 r
            | S k =>
                match is_line_sep l with
                | Some d => backslash :: bytes "u202" ++ d :: escape 0 2 r
                | None => c :: escape k 0 r
                end
            end
      end
  end.

Definition appendString (s : string) : list ascii :=
  quote :: escape 0 0 (bytes s) ++ [quote].

Definition comma : ascii := ","%char.

(** The encodings of the elements, with a comma between two. *)
Fixpoint sep_by (parts : list (list ascii)) : list ascii :=
  match parts with
  | [] => []
  | [p] => p
  | p :: rest => p ++ comma :: sep_by rest
  end.

Fixpoint marshal (v : value) : list ascii :=
  match v with
  | Nil => bytes "null"
  | Bool true => bytes "true"
  | Bool false => bytes "false"
  | Float64 f => bytes (FormatFloat f)
  | Str s => appendString s
  | Slice elems => "["%char :: sep_by (map marshal elems) ++ ["]"%char]
  | Map entries =>
      "{"%char
        :: sep_by (map (fun kv => appendString (fst kv) ++ ":"%char :: marshal (snd kv)) entries)
        ++ ["}"%char]
  end.

(** [Marshal] of the map: the map encoder writes a nil map as
    [null]. *)
Definition Marshal (data : option (list (string * value))) : list ascii :=
  match data with
  | None => bytes "null"
  | Some m => marshal (Map m)
  end.

(** [Encoder.Encode]: the encoding, and a newline after it. *)
Definition Encode (data : option (list (string * value))) : string :=
  str (Marshal data ++ [NL]).

End Values.

Arguments Nil {float64}.
Arguments Bool {float64} b.
Arguments Float64 {float64} f.
Arguments Str {float64} s.
Arguments Slice {float64} elems.
Arguments Map {float64} entries.

End Json.

(** ** Parse *)

Inductive parse_error :=
  | ErrNotValidCurlCommand (curl : string)
  | ErrShellwords (e : string)
  | ErrJSON (e : Json.error).

Section Parse.

Variable unicode_ToLower : string -> string.

(** [shellwords.Parse]: the words of the command line, or an error. *)
Variable shellwords_Parse : string -> string + list string.

Variable float64 : Type.
Variable ParseFloat : string -> option float64.
Variable FormatFloat : float64 -> string.

(** The loop of [Parse] over the sanitized words. *)
Definition build (args : list string) : Request :=
  fst (loop unicode_ToLower (sanitize args) (new_request, NoArg)).

(** The last part of [Parse], under the comment "Format JSON body".
    Encoding what [Unmarshal] has stored cannot fail. *)
Definition format_body (req : Request) : parse_error + Request :=
  if String.eqb (index_or_zero (Header req) KeyContentType) ContentTypeJSON then
    match Json.Unmarshal float64 ParseFloat (Body req) with
    | inl e => inl (ErrJSON e)
    | inr data => inr (set_Body (ReplaceAll (Json.Encode float64 FormatFloat data) nl "") req)
    end
  else inr req.

Definition Parse (curl : string) : parse_error + Request :=
  if negb (Index curl "curl " =? 0)%Z then inl (ErrNotValidCurlCommand curl)
  else
    match shellwords_Parse curl with
    | inl e => inl (ErrShellwords e)
    | inr args => format_body (build args)
    end.

End Parse.

(** ** The helpers of the earlier revision

    The second file of parse.go keeps the functions that [sanitize],
    [isURL] and [strings.Cut] replaced. *)

(** A slice expression [s[lo:hi]]: it panics ([None]) unless
    [0 <= lo <= hi <= len(s)]. *)
Definition slice (s : string) (lo hi : Z) : option string :=
  if ((0 <=? lo) && (lo <=? hi) && (hi <=? Z.of_nat (String.length s)))%Z
  then Some (substring (Z.to_nat lo) (Z.to_nat (hi - lo)) s)
  else None.

(** [parseField]: [arg[0:index]] and [arg[index+2:]] around the first
    colon. *)
Definition parseField (arg : string) : option (list string) :=
  let index := Index arg ":" in
  match slice arg 0 index, slice arg (index + 2) (Z.of_nat (String.length arg)) with
  | Some key, Some val => Some [key; val]
  | _, _ => None
  end.

Definition validURL (u : string) : bool := HasPrefix u "http://" || HasPrefix u "https://".

(** [rewrite]: as [sanitize], but the split is taken whenever the
    word starts with [-X]; the slices are in bounds then. *)
Fixpoint rewrite (args : list string) : list string :=
  match args with
  | [] => []
  | arg :: rest =>
      let arg := TrimSpace arg in
      if String.eqb arg nl then rewrite rest
      else
        let arg := if Contains arg nl then ReplaceAll arg nl "" else arg in
        if (Index arg "-X" =? 0)%Z
        then substring 0 2 arg :: substring 2 (String.length arg - 2) arg :: rewrite rest
        else arg :: rewrite rest
  end.

(** ** Instances for the examples

    A splitter for command lines that only use blanks, quotes and
    backslashes: blanks outside quotes separate the words, single and
    double quotes group, and a backslash outside single quotes takes the
    next byte as it is.  On such lines it splits as a shell does. *)
Inductive quoting := Unquoted | SingleQuoted | DoubleQuoted.

Fixpoint words_from (q : quoting) (escaped got : bool) (buf : list ascii) (l : list ascii)
  : string + list string :=
  match l with
  | [] =>
      if escaped then inl "invalid command line string"
      else match q with
           | Unquoted => inr (if got then [str (rev buf)] else [])
           | _ => inl "invalid command line string"
           end
  | c :: r =>
      if escaped then words_from q false true (c :: buf) r
      else if Ascii.eqb c Json.backslash then
        match q with
        | SingleQuoted => words_from q false got (c :: buf) r
        | _ => words_from q true got buf r
        end
      else if asciiSpace c && negb (code c =? 11)%N && negb (code c =? 12)%N then
        match q with
        | Unquoted =>
            if got
            then match words_from Unquoted false false [] r with
                 | inr ws => inr (str (rev buf) :: ws)
                 | inl e => inl e
                 end
            else words_from Unquoted false false [] r
        | _ => words_from q false got (c :: buf) r
        end
      else if Ascii.eqb c "'" then
        match q with
        | Unquoted => words_from SingleQuoted false true buf r
        | SingleQuoted => words_from Unquoted false true buf r
        | DoubleQuoted => words_from q false true (c :: buf) r
        end
      else if Ascii.eqb c Json.quote then
        match q with
        | Unquoted => words_from DoubleQuoted false true buf r
        | DoubleQuoted => words_from Unquoted false true buf r
        | SingleQuoted => words_from q false true (c :: buf) r
        end
      else words_from q false true (c :: buf) r
  end.

Definition words (line : string) : string + list string :=
  words_from Unquoted false false [] (bytes line).

(** Case mapping and numbers for the examples: bytes outside ASCII
    are left alone, and a number is written as it was read. *)
Definition lower_bytes (s : string) : string := str (map lower_byte (bytes s)).

Definition number_text (lit : string) : option string := Some lit.

Definition number_out (f : string) : string :=
  if forallb Json.is_number_byte (bytes f) then f else "0".

Definition parse_example : string -> parse_error + Request :=
  Parse lower_bytes words string number_text number_out.

Definition dq : string := String Json.quote "".



(** ** Vocabulary of the statements *)

(** A word that begins with [http://] or [https://]. *)
Definition url_shaped (t : string) : bool := HasPrefix t "http://" || HasPrefix t "https://".

(** No byte of [s] is one of the letters A to Z. *)
Definition no_upper (s : string) : Prop := Forall (fun c => is_upper c = false) (bytes s).

Definition colon : ascii := ":"%char.









(** Every key of the header map is free of upper-case letters. *)
Definition keys_lower (h : HeaderMap) : Prop := forall k, is_Some (h !! k) -> no_upper k.

(** The flags that can change the method: the head flag at once, the
    request and data flags through their payload. *)
Definition sets_method (arg : string) : bool :=
  is_flag arg "-I" "--head" || is_flag arg "-X" "--request" || is_data_flag arg.

(** What the data case makes of the body, given a payload. *)
Definition add_data (body p : string) : string :=
  if (String.length body =? 0)%nat then p else body +:+ "&" +:+ p.

Definition nonempty (s : string) : bool := negb (String.eqb s "").

(** The keys of two entries, in increasing order. *)
Definition key_lt {A} (a b : string * A) : Prop := String.compare (fst a) (fst b) = Lt.

(** * Properties *)

(** ** Bytes and strings *)

Lemma bytes_str (l : list ascii) : bytes (str l) = l.
Proof. apply list_ascii_of_string_of_list_ascii. Qed.

Lemma str_bytes (s : string) : str (bytes s) = s.
Proof. apply string_of_list_ascii_of_string. Qed.

Lemma bytes_app (a b : string) : bytes (a +:+ b) = bytes a ++ bytes b.
Proof. induction a as [|c a IH]; simpl; [reflexivity | now rewrite <- IH]. Qed.


Lemma bytes_inj (a b : string) : bytes a = bytes b -> a = b.
Proof. intros H. rewrite <- (str_bytes a), <- (str_bytes b). now rewrite H. Qed.

Lemma HasPrefix_nil (s : string) : HasPrefix s "" = true.
Proof. now destruct s. Qed.

Lemma Index_from_range (sub s : string) (i : Z) :
  (Index_from i s sub = -1 \/ i <= Index_from i s sub)%Z.
Proof.
  revert i. induction s as [|c s IH]; intros i; cbn [Index_from].
  - destruct (HasPrefix "" sub); lia.
  - destruct (HasPrefix (String c s) sub); [lia|].
    destruct (IH (i + 1)%Z); lia.
Qed.

(** [strings.Index(s, sub) == 0] says that [s] starts with [sub]. *)
Lemma Index_zero (s sub : string) : (Index s sub =? 0)%Z = HasPrefix s sub.
Proof.
  unfold Index. destruct s as [|c s]; cbn [Index_from].
  - now destruct (HasPrefix "" sub).
  - destruct (HasPrefix (String c s) sub); [reflexivity|].
    destruct (Index_from_range sub s (0 + 1)) as [H|H]; rewrite Z.eqb_neq; lia.
Qed.

(** ** The state machine *)

Section MachineFacts.

Variable unicode_ToLower : string -> string.

Abbreviation step := (step unicode_ToLower).
Abbreviation loop := (loop unicode_ToLower).
Abbreviation consume := (consume unicode_ToLower).

Lemma payload_spec (arg : string) :
  payload arg = true -> isURL arg = false /\ is_option arg = false.
Proof.
  unfold payload. intros H. apply andb_true_iff in H as [H1 H2].
  split; now apply negb_true_iff.
Qed.

(** A word of the [default] case: consumed when a value is awaited,
    dropped otherwise. *)
Lemma step_payload (req : Request) (t : argType) (arg : string) :
  payload arg = true ->
  step (req, t) arg =
    match t with
    | NoArg => (req, NoArg)
    | _ => (consume t arg req, NoArg)
    end.
Proof.
  intros H. apply payload_spec in H as [Hu Ho].
  unfold is_option in Ho.
  repeat match type of Ho with
         | (_ || _) = false => apply orb_false_elim in Ho; destruct Ho as [Ho ?]
         end.
  unfold step. rewrite Hu.
  repeat match goal with H : _ = false |- _ => rewrite H; clear H end.
  reflexivity.
Qed.

Lemma step_url (req : Request) (t : argType) (arg : string) :
  isURL arg = true -> step (req, t) arg = (set_URL arg req, t).
Proof. intros H. unfold step. now rewrite H. Qed.

Lemma HasPrefix_eqb (arg lit p : string) :
  String.eqb arg lit = true -> HasPrefix lit p = false -> HasPrefix arg p = false.
Proof. intros H. apply String.eqb_eq in H. now subst. Qed.

Lemma option_not_url (arg : string) : is_option arg = true -> isURL arg = false.
Proof.
  unfold is_option, is_flag, is_data_flag, isURL. intros H.
  repeat (apply orb_true_iff in H as [H|H]);
    rewrite (HasPrefix_eqb _ _ "http://" H eq_refl), (HasPrefix_eqb _ _ "https://" H eq_refl);
    reflexivity.
Qed.

Lemma flag_kind_option (arg : string) (k : argType) :
  flag_kind arg = Some k -> is_option arg = true.
Proof.
  unfold flag_kind, is_option. intros H.
  repeat match type of H with
         | (if ?b then _ else _) = _ => destruct b eqn:?; simpl
         end; try discriminate; rewrite ?orb_true_r; reflexivity.
Qed.

(** A flag that takes a value leaves the request as it is and sets
    [argType], whatever was awaited before. *)
Lemma step_flag (req : Request) (t : argType) (arg : string) (k : argType) :
  flag_kind arg = Some k -> step (req, t) arg = (req, k).
Proof.
  intros H. pose proof (option_not_url _ (flag_kind_option _ _ H)) as Hu.
  unfold step. rewrite Hu. unfold flag_kind in H.
  repeat match type of H with
         | (if ?b then _ else _) = _ => destruct b eqn:?
         end; try discriminate; now inversion H.
Qed.

Lemma consume_URL (t : argType) (arg : string) (req : Request) :
  URL (consume t arg req) = URL req.
Proof.
  destruct t; simpl; try reflexivity.
  - destruct (Cut arg ":") as [[key val] found]. reflexivity.
  - destruct (_ || _); simpl; destruct (_ !! _); simpl; destruct (_ =? _)%nat; reflexivity.
Qed.

Lemma method_test (m : string) :
  String.eqb m MethodGet || String.eqb m MethodHead
  = bool_decide (m = "GET" \/ m = "HEAD").
Proof.
  unfold MethodGet, MethodHead.
  destruct (String.eqb_spec m "GET"), (String.eqb_spec m "HEAD"); simpl; symmetry;
    (apply bool_decide_eq_true_2 || apply bool_decide_eq_false_2); tauto.
Qed.

Lemma body_test (b : string) : (String.length b =? 0)%nat = bool_decide (b = "").
Proof.
  destruct b; symmetry;
    [now apply bool_decide_eq_true_2 | now apply bool_decide_eq_false_2].
Qed.

(** The data case of [consume], field by field. *)
Lemma consume_data (arg : string) (req : Request) :
  consume ArgData arg req =
    mkRequest
      (if String.eqb (Method req) MethodGet || String.eqb (Method req) MethodHead
       then MethodPost else Method req)
      (URL req)
      (match Header req !! KeyContentType with
       | Some _ => Header req
       | None => <[KeyContentType:=ContentTypeForm]> (Header req)
       end)
      (if (String.length (Body req) =? 0)%nat then arg else Body req +:+ "&" +:+ arg)
      (SkipTLS req) (Timeout req).
Proof.
  destruct req as [m u h b s t]. unfold consume. cbn [Method Header Body URL SkipTLS Timeout].
  destruct (String.eqb m MethodGet || String.eqb m MethodHead); cbn;
    destruct (h !! KeyContentType); cbn; destruct (String.length b =? 0)%nat; reflexivity.
Qed.

(** C1: a word consumed as the payload of a data flag is appended to
    the body, after an ampersand when the body is not empty; the method
    becomes POST when it was GET or HEAD, the content type becomes
    application/x-www-form-urlencoded when the header map has no
    content-type entry, and nothing is awaited afterwards. *)
Theorem data_payload_appended (req : Request) (arg : string) :
  payload arg = true ->
  let st := step (req, ArgData) arg in
  snd st = NoArg
  /\ Body (fst st) = (if decide (Body req = "") then arg else Body req +:+ "&" +:+ arg)
  /\ Method (fst st) =
       (if decide (Method req = "GET" \/ Method req = "HEAD") then "POST" else Method req)
  /\ Header (fst st) =
       (if decide (is_Some (Header req !! "content-type")) then Header req
        else <["content-type" := "application/x-www-form-urlencoded"]> (Header req))
  /\ URL (fst st) = URL req /\ SkipTLS (fst st) = SkipTLS req /\ Timeout (fst st) = Timeout req.
Proof.
  intros H st. subst st. rewrite (step_payload _ _ _ H). cbn [fst snd].
  rewrite consume_data. cbn [Body Method Header URL SkipTLS Timeout].
  rewrite method_test, body_test.
  repeat split.
  - case_bool_decide; case_decide; tauto.
  - case_bool_decide; case_decide; tauto.
  - destruct (Header req !! KeyContentType) eqn:E; case_decide as D; try reflexivity.
    + destruct D. eauto.
    + destruct D as [? D]. unfold KeyContentType in E. congruence.
Qed.

(** C9: a URL met while a value is awaited is stored and leaves
    [argType] alone, so that after a value-taking flag and a URL the
    next word of the [default] case is still consumed as the payload of
    that flag, and the URL stays in the request. *)
Theorem url_keeps_pending_flag (req : Request) (t k : argType) (flag url tok : string) :
  flag_kind flag = Some k ->
  isURL url = true ->
  payload tok = true ->
  step (req, t) flag = (req, k)
  /\ step (req, k) url = (set_URL url req, k)
  /\ loop [flag; url; tok] (req, t) = (consume k tok (set_URL url req), NoArg)
  /\ URL (consume k tok (set_URL url req)) = url.
Proof.
  intros Hf Hu Hp.
  assert (H1 := step_flag req t flag k Hf).
  assert (H2 := step_url req k url Hu).
  repeat split; try assumption.
  - unfold loop. cbn [fold_left]. rewrite H1, H2, (step_payload _ _ _ Hp).
    now destruct k.
  - now rewrite consume_URL.
Qed.

(** *** The URL field *)

Lemma step_URL (st : Request * argType) (arg : string) :
  URL (fst (step st arg)) = if isURL arg then arg else URL (fst st).
Proof.
  destruct st as [req t]. unfold step. destruct (isURL arg); [reflexivity|].
  repeat match goal with |- context [if ?b then _ else _] => destruct b; [reflexivity|] end.
  destruct t; cbn [fst]; try apply consume_URL. reflexivity.
Qed.

Lemma last_cons {A} (a d : A) (l : list A) : List.last (a :: l) d = List.last l a.
Proof.
  revert a d. induction l as [|b l IH]; intros a d; [reflexivity|].
  change (List.last (a :: b :: l) d) with (List.last (b :: l) d). rewrite IH.
  symmetry. apply IH.
Qed.

(** The loop leaves in [URL] the last word that [isURL] accepts. *)
Lemma loop_URL (toks : list string) (st : Request * argType) :
  URL (fst (loop toks st)) = List.last (List.filter isURL toks) (URL (fst st)).
Proof.
  revert st. induction toks as [|a toks IH]; intros st; [reflexivity|].
  change (loop (a :: toks) st) with (loop toks (step st a)).
  rewrite IH, step_URL. cbn [List.filter].
  destruct (isURL a); [now rewrite last_cons | reflexivity].
Qed.

(** *** The keys of the header map *)

Lemma lower_byte_not_upper (c : ascii) : is_upper (lower_byte c) = false.
Proof. destruct c as [[] [] [] [] [] [] [] []]; reflexivity. Qed.

Lemma no_upper_lower_bytes (l : list ascii) :
  Forall (fun c => is_upper c = false) (map lower_byte l).
Proof. induction l; constructor; [apply lower_byte_not_upper | assumption]. Qed.

Hypothesis unicode_ToLower_lower : forall s, no_upper (unicode_ToLower s).

Lemma ToLower_no_upper (s : string) : no_upper (ToLower unicode_ToLower s).
Proof.
  unfold ToLower. destruct (forallb is_ascii (bytes s)).
  - unfold no_upper. rewrite bytes_str. apply no_upper_lower_bytes.
  - apply unicode_ToLower_lower.
Qed.

Lemma keys_lower_insert (h : HeaderMap) (k v : string) :
  no_upper k -> keys_lower h -> keys_lower (<[k:=v]> h).
Proof.
  intros Hk Hh k' Hs. destruct (decide (k = k')) as [<-|Hne]; [assumption|].
  rewrite lookup_insert_ne in Hs by assumption. now apply Hh.
Qed.

Lemma no_upper_literal (s : string) :
  forallb (fun c => negb (is_upper c)) (bytes s) = true -> no_upper s.
Proof.
  intros H. apply List.Forall_forall. intros c Hc.
  rewrite forallb_forall in H. apply negb_true_iff. now apply H.
Qed.

Lemma consume_keys (t : argType) (arg : string) (req : Request) :
  keys_lower (Header req) -> keys_lower (Header (consume t arg req)).
Proof.
  intros H. destruct t; try assumption.
  - cbn. apply keys_lower_insert; [now apply no_upper_literal | assumption].
  - cbn [consume]. destruct (Cut arg ":") as [[key val] found]. cbn.
    apply keys_lower_insert; [apply ToLower_no_upper | assumption].
  - rewrite consume_data. cbn [Header]. destruct (Header req !! KeyContentType); [assumption|].
    apply keys_lower_insert; [now apply no_upper_literal | assumption].
  - cbn. apply keys_lower_insert; [now apply no_upper_literal | assumption].
  - cbn. apply keys_lower_insert; [now apply no_upper_literal | assumption].
Qed.

Lemma step_keys (st : Request * argType) (arg : string) :
  keys_lower (Header (fst st)) -> keys_lower (Header (fst (step st arg))).
Proof.
  destruct st as [req t]. cbn [fst]. intros H. unfold step.
  repeat match goal with |- context [if ?b then _ else _] => destruct b; [assumption|] end.
  destruct t; cbn [fst]; try apply consume_keys; assumption.
Qed.

Lemma loop_keys (toks : list string) (st : Request * argType) :
  keys_lower (Header (fst st)) -> keys_lower (Header (fst (loop toks st))).
Proof.
  revert st. induction toks as [|a toks IH]; intros st H; [assumption|].
  change (loop (a :: toks) st) with (loop toks (step st a)).
  now apply IH, step_keys.
Qed.

End MachineFacts.

(** C7: the code at the failing input.  The empty word that follows
    the data flag is consumed as its payload: the method becomes POST,
    the content type is set, and nothing is awaited any more, so the
    word a=1 is dropped. *)
Theorem empty_word_consumed_as_data :
  parse_example ("curl -d \" +:+ nl +:+ " a=1 https://x")
  = inr (mkRequest "POST" "https://x"
           {["content-type" := "application/x-www-form-urlencoded"]} "" false "").
Proof. vm_compute. reflexivity. Qed.


(** ** The normalizer *)

Lemma space_prefix_le (l : list ascii) : space_prefix l <= List.length l.
Proof.
  unfold space_prefix. destruct l as [|a [|b [|c l]]]; cbn [firstn map space_rune List.length];
    repeat match goal with |- context [if ?b then _ else _] => destruct b end; lia.
Qed.

Lemma space_suffix_le (l : list ascii) : space_suffix l <= List.length l.
Proof.
  unfold space_suffix.
  destruct l as [|a [|b [|c l]]]; cbn [firstn map rev app space_rune List.length];
    repeat match goal with |- context [if ?b then _ else _] => destruct b end; lia.
Qed.

(** With fuel for every byte, [strip] stops where no white-space rune
    is left at the head. *)
Lemma strip_done (width : list ascii -> nat) (fuel : nat) (l : list ascii) :
  (forall x, width x <= List.length x) ->
  List.length l <= fuel ->
  width (strip width fuel l) = 0.
Proof.
  intros Hw. revert l. induction fuel as [|fuel IH]; intros l Hl; cbn [strip].
  - pose proof (Hw l). lia.
  - destruct (width l) as [|n] eqn:E; [assumption|].
    apply IH. rewrite length_skipn. lia.
Qed.

(** The comparison [arg == "\n"] of [sanitize] comes after
    [TrimSpace], which has removed the newline: it never holds. *)
Lemma TrimSpace_not_newline (s : string) : String.eqb (TrimSpace s) nl = false.
Proof.
  apply String.eqb_neq. intros H. apply (f_equal bytes) in H.
  unfold TrimSpace in H. rewrite bytes_str in H. unfold trim_right in H.
  set (x := trim_left (bytes s)) in *.
  pose proof (strip_done space_suffix (List.length x) (rev x) space_suffix_le) as D.
  rewrite length_rev in D. specialize (D (le_n _)).
  apply (f_equal (@rev ascii)) in H. rewrite rev_involutive in H.
  rewrite H in D. discriminate D.
Qed.

Lemma sanitize_cons (arg : string) (rest : list string) :
  sanitize (arg :: rest) = sanitize [arg] ++ sanitize rest.
Proof.
  cbn [sanitize]. rewrite TrimSpace_not_newline.
  destruct (HasPrefix _ "-X" && _); reflexivity.
Qed.

Lemma sanitize_app (a b : list string) : sanitize (a ++ b) = sanitize a ++ sanitize b.
Proof.
  induction a as [|x a IH]; [reflexivity|].
  rewrite <- app_comm_cons, sanitize_cons, (sanitize_cons x a), IH. now rewrite app_assoc.
Qed.

(** C8: the code at the failing input.  A word that is exactly a
    newline is not removed: it is trimmed to the empty string, and the
    empty word is emitted in its place. *)
Theorem newline_word_becomes_empty_word (before after : list string) :
  sanitize (before ++ nl :: after) = sanitize before ++ "" :: sanitize after.
Proof. rewrite sanitize_app, (sanitize_cons nl after). reflexivity. Qed.

(** No word is ever dropped. *)
Lemma sanitize_length (args : list string) : List.length args <= List.length (sanitize args).
Proof.
  induction args as [|a args IH]; [reflexivity|].
  rewrite sanitize_cons, length_app. cbn [sanitize List.length].
  rewrite TrimSpace_not_newline. destruct (HasPrefix _ "-X" && _); cbn [List.length]; lia.
Qed.

(** *** Trimming *)

Lemma strip_fixed (width : list ascii -> nat) (fuel : nat) (l : list ascii) :
  width l = 0 -> strip width fuel l = l.
Proof. intros H. destruct fuel; cbn [strip]; [reflexivity | now rewrite H]. Qed.

(** [strip] only removes bytes from the head. *)
Lemma strip_tail (width : list ascii -> nat) (fuel : nat) (l : list ascii) :
  exists p, l = p ++ strip width fuel l.
Proof.
  revert l. induction fuel as [|fuel IH]; intros l; cbn [strip]; [now exists []|].
  destruct (width l) as [|n]; [now exists []|].
  destruct (IH (skipn (S n) l)) as [p Hp].
  exists (firstn (S n) l ++ p). rewrite <- app_assoc, <- Hp. symmetry. apply firstn_skipn.
Qed.

Lemma trim_left_tail (l : list ascii) : exists p, l = p ++ trim_left l.
Proof. apply strip_tail. Qed.

Lemma trim_right_head (l : list ascii) : exists p, l = trim_right l ++ p.
Proof.
  unfold trim_right. destruct (strip_tail space_suffix (List.length l) (rev l)) as [p Hp].
  exists (rev p). rewrite <- rev_app_distr, <- Hp. symmetry. apply rev_involutive.
Qed.

Lemma space_prefix_app (l y : list ascii) :
  space_prefix l <> 0 -> space_prefix (l ++ y) = space_prefix l.
Proof.
  unfold space_prefix.
  destruct l as [|a [|b [|c l]]]; cbn [firstn app map]; rewrite ?firstn_O; cbn [map]; intros H;
    repeat match goal with
           | |- context [if ?b then _ else _] => destruct b eqn:?
           | H : context [if ?b then _ else _] |- _ => destruct b eqn:?
           end; cbn [space_rune] in *; congruence.
Qed.

Lemma space_suffix_app (r y : list ascii) :
  space_suffix r <> 0 -> space_suffix (r ++ y) = space_suffix r.
Proof.
  unfold space_suffix.
  destruct r as [|a [|b [|c r]]]; cbn [firstn app map rev]; rewrite ?firstn_O;
    cbn [firstn app map rev]; intros H;
    repeat match goal with
           | |- context [if ?b then _ else _] => destruct b eqn:?
           | H : context [if ?b then _ else _] |- _ => destruct b eqn:?
           end; cbn [space_rune] in *; congruence.
Qed.

(** A trimmed sequence begins and ends with no white-space rune. *)
Lemma trimmed_ends (b : list ascii) :
  trim_right (trim_left b) = b -> space_prefix b = 0 /\ space_suffix (rev b) = 0.
Proof.
  intros H.
  destruct (trim_left_tail b) as [p Hp].
  destruct (trim_right_head (trim_left b)) as [q Hq].
  assert (Hl : trim_left b = b).
  { assert (Hn : List.length p = 0).
    { apply (f_equal (@List.length ascii)) in Hp, Hq.
      rewrite length_app in Hp, Hq. rewrite H in Hq. lia. }
    destruct p; [symmetry; exact Hp | discriminate]. }
  rewrite Hl in H. split.
  - rewrite <- Hl at 1. apply strip_done; [apply space_prefix_le | reflexivity].
  - apply (f_equal (@rev ascii)) in H. unfold trim_right in H. rewrite rev_involutive in H.
    rewrite <- H at 1. apply strip_done; [apply space_suffix_le | now rewrite length_rev].
Qed.

(** In a trimmed word, the text after any point has no trailing white
    space left once its leading white space is removed, and the text
    before any point has no leading white space. *)
Lemma trimmed_tail (s before after : string) :
  TrimSpace s = s -> s = before +:+ after -> TrimSpace after = TrimLeftSpace after.
Proof.
  intros Ht Hs. unfold TrimSpace, TrimLeftSpace. f_equal.
  apply (f_equal bytes) in Ht. unfold TrimSpace in Ht. rewrite bytes_str in Ht.
  apply trimmed_ends in Ht as [_ He].
  destruct (trim_left_tail (bytes after)) as [p Hp].
  set (x := trim_left (bytes after)) in *.
  assert (Hx : space_suffix (rev x) = 0).
  { destruct (space_suffix (rev x)) as [|n] eqn:E; [reflexivity|]. exfalso.
    rewrite Hs, bytes_app, Hp, app_assoc, rev_app_distr in He.
    rewrite space_suffix_app in He by (rewrite E; discriminate). congruence. }
  unfold trim_right. rewrite strip_fixed by assumption. apply rev_involutive.
Qed.

Lemma trimmed_head (s before after : string) :
  TrimSpace s = s -> s = before +:+ after -> TrimLeftSpace before = before.
Proof.
  intros Ht Hs. unfold TrimLeftSpace.
  apply (f_equal bytes) in Ht. unfold TrimSpace in Ht. rewrite bytes_str in Ht.
  apply trimmed_ends in Ht as [Hb _].
  assert (Hx : space_prefix (bytes before) = 0).
  { destruct (space_prefix (bytes before)) as [|n] eqn:E; [reflexivity|]. exfalso.
    rewrite Hs, bytes_app in Hb.
    rewrite space_prefix_app in Hb by (rewrite E; discriminate). congruence. }
  unfold trim_left. rewrite strip_fixed by assumption. apply str_bytes.
Qed.

(** *** Cut *)

Lemma substring_all (s : string) : substring 0 (String.length s) s = s.
Proof. induction s as [|c s IH]; [reflexivity|]. cbn. now rewrite IH. Qed.

(** [Cut] at the first colon. *)
Lemma Cut_colon (s : string) :
  match Cut s ":" with
  | (key, val, true) => s = key +:+ ":" +:+ val /\ ~ In colon (bytes key)
  | (key, val, false) => key = s /\ val = "" /\ ~ In colon (bytes s)
  end.
Proof.
  unfold Cut. induction s as [|c s IH].
  - cbn. tauto.
  - cbn [Cut_from HasPrefix]. rewrite HasPrefix_nil, andb_true_r.
    destruct (Ascii.eqb_spec ":"%char c) as [<-|Hc].
    + cbn [String.length Nat.sub substring]. rewrite Nat.sub_0_r, substring_all.
      split; [reflexivity | intros []].
    + destruct (Cut_from s ":") as [[before after]|].
      * destruct IH as [-> Hk]. split; [reflexivity|].
        cbn. intros [E|E]; [now apply Hc | now apply Hk].
      * destruct IH as (_ & _ & Hn). repeat split. cbn. intros [E|E]; [now apply Hc | now apply Hn].
Qed.

(** *** The header flag *)

(** C6, as amended: a word consumed as the payload of a header flag
    is cut at its first colon (a word without a colon is all key, and
    the value is empty).  The name stored is the key in lower case; it
    is not trimmed.  The value stored is the value with the white space
    trimmed on both sides, and the entry replaces any entry of that
    name.  When the word itself is trimmed, the key has no leading
    white space and trimming the value is trimming it on the left. *)
Theorem header_payload_stored (unicode_ToLower : string -> string)
    (req : Request) (arg : string) :
  payload arg = true ->
  let '(key, val, found) := Cut arg ":" in
  let name := ToLower unicode_ToLower key in
  (if found then arg = key +:+ ":" +:+ val /\ ~ In colon (bytes key)
   else key = arg /\ val = "")
  /\ step unicode_ToLower (req, ArgHeader) arg = (set_Header name (TrimSpace val) req, NoArg)
  /\ Header (set_Header name (TrimSpace val) req) !! name = Some (TrimSpace val)
  /\ (forall k, k <> name -> Header (set_Header name (TrimSpace val) req) !! k = Header req !! k)
  /\ (TrimSpace arg = arg -> TrimLeftSpace key = key /\ TrimSpace val = TrimLeftSpace val).
Proof.
  intros Hp. pose proof (Cut_colon arg) as Hc.
  pose proof (step_payload unicode_ToLower req ArgHeader arg Hp) as Hs.
  cbn [consume] in Hs.
  destruct (Cut arg ":") as [[key val] found]. cbn zeta.
  split; [destruct found; tauto|].
  split; [exact Hs|].
  split; [cbn; apply lookup_insert_eq|].
  split; [intros k Hk; cbn; now apply lookup_insert_ne|].
  intros Ht. destruct found.
  - destruct Hc as [Hc _]. split.
    + now apply (trimmed_head arg key (":" +:+ val)).
    + apply (trimmed_tail arg (key +:+ ":") val); [assumption|].
      rewrite Hc. apply bytes_inj. now rewrite !bytes_app, <- app_assoc.
  - destruct Hc as (-> & -> & _). split; [|reflexivity].
    apply (trimmed_head arg arg ""); [assumption|].
    apply bytes_inj. now rewrite bytes_app, app_nil_r.
Qed.

Lemma header_payload_stored_witness :
  step lower_bytes (new_request, ArgHeader) "Accept : x"
  = (set_Header "accept " "x" new_request, NoArg).
Proof.
  pose proof (header_payload_stored lower_bytes new_request "Accept : x" eq_refl) as H.
  cbv beta iota zeta delta [Cut Cut_from HasPrefix] in H.
  destruct H as (_ & H & _). exact H.
Defined.

(** C6 fails as stated: the white space between the key and the colon
    stays in the header name. *)
Lemma header_name_not_trimmed :
  ~ (forall req key val found,
       parse_example "curl -H 'Accept : x' https://x" = inr req ->
       Cut "Accept : x" ":" = (key, val, found) ->
       Header req !! TrimSpace (ToLower lower_bytes key) = Some (TrimLeftSpace val)).
Proof.
  intros H.
  specialize (H (mkRequest "GET" "https://x" {["accept " := "x"]} "" false "")
                "Accept " " x" true eq_refl eq_refl).
  vm_compute in H. discriminate H.
Qed.

(** *** Newlines *)

Lemma Index_from_newline (s : string) (j : Z) :
  (0 <= j)%Z -> (0 <=? Index_from j s nl)%Z = existsb (Ascii.eqb NL) (bytes s).
Proof.
  revert j. induction s as [|c s IH]; intros j Hj;
    cbn [Index_from bytes list_ascii_of_string existsb].
  - reflexivity.
  - unfold nl at 1. cbn [HasPrefix]. rewrite HasPrefix_nil, andb_true_r.
    destruct (Ascii.eqb NL c); cbn [orb].
    + apply Z.leb_le, Hj.
    + apply IH. lia.
Qed.

Lemma Contains_newline (s : string) : Contains s nl = existsb (Ascii.eqb NL) (bytes s).
Proof. unfold Contains, Index. now apply Index_from_newline. Qed.

Lemma not_Contains_newline (s : string) : Contains s nl = false <-> ~ In NL (bytes s).
Proof.
  rewrite Contains_newline. split.
  - intros H Hin. apply not_true_iff_false in H. apply H, existsb_exists.
    exists NL. split; [assumption | apply Ascii.eqb_refl].
  - intros H. apply not_true_iff_false. intros E. apply existsb_exists in E as (c & Hc & E).
    apply Ascii.eqb_eq in E. now subst.
Qed.

(** [ReplaceAll(s, "\n", "")] removes the newline bytes. *)
Lemma ReplaceAll_newline (s : string) :
  bytes (ReplaceAll s nl "") = List.filter (fun c => negb (Ascii.eqb NL c)) (bytes s).
Proof.
  unfold ReplaceAll. induction s as [|c s IH]; [reflexivity|].
  change (bytes (String c s)) with (c :: bytes s).
  cbn [ReplaceAll_skip]. unfold nl at 1. cbn [HasPrefix].
  rewrite HasPrefix_nil, andb_true_r. cbn [List.filter].
  destruct (Ascii.eqb NL c); cbn [negb].
  - exact IH.
  - change (bytes (String c ?x)) with (c :: bytes x). f_equal. exact IH.
Qed.

Lemma ReplaceAll_newline_free (s : string) : ~ In NL (bytes (ReplaceAll s nl "")).
Proof.
  rewrite ReplaceAll_newline. intros H. apply filter_In in H as [_ H].
  now rewrite Ascii.eqb_refl in H.
Qed.

Lemma bytes_substring (n m : nat) (s : string) :
  bytes (substring n m s) = firstn m (skipn n (bytes s)).
Proof.
  revert n m. induction s as [|c s IH]; intros n m.
  - destruct n, m; reflexivity.
  - destruct n as [|n].
    + destruct m as [|m]; [reflexivity|]. cbn. f_equal. apply (IH 0 m).
    + cbn. apply IH.
Qed.

Lemma In_firstn {A} (n : nat) (l : list A) (x : A) : In x (firstn n l) -> In x l.
Proof. intros H. rewrite <- (firstn_skipn n l). apply in_or_app. now left. Qed.

Lemma In_skipn {A} (n : nat) (l : list A) (x : A) : In x (skipn n l) -> In x l.
Proof. intros H. rewrite <- (firstn_skipn n l). apply in_or_app. now right. Qed.

Lemma substring_newline_free (n m : nat) (s : string) :
  ~ In NL (bytes s) -> ~ In NL (bytes (substring n m s)).
Proof.
  intros H Hin. rewrite bytes_substring in Hin.
  apply H. eapply In_skipn, In_firstn, Hin.
Qed.

(** The words that [sanitize] emits hold no newline. *)
Lemma sanitize_newline_free (args : list string) (t : string) :
  In t (sanitize args) -> ~ In NL (bytes t).
Proof.
  induction args as [|a args IH]; [intros []|].
  cbn [sanitize]. rewrite TrimSpace_not_newline.
  set (arg := if Contains _ nl then _ else _).
  assert (Harg : ~ In NL (bytes arg)).
  { subst arg. destruct (Contains (TrimSpace a) nl) eqn:E.
    - apply ReplaceAll_newline_free.
    - now apply not_Contains_newline. }
  destruct (HasPrefix arg "-X" && _); cbn [In]; intros H.
  - destruct H as [<-|[<-|H]]; [now apply substring_newline_free.. | now apply IH].
  - destruct H as [<-|H]; [assumption | now apply IH].
Qed.

(** On such a word, [isURL] only tests the scheme. *)
Lemma isURL_url_shaped (t : string) : ~ In NL (bytes t) -> isURL t = url_shaped t.
Proof.
  intros H. apply not_Contains_newline in H. unfold isURL, url_shaped.
  rewrite H. apply andb_true_r.
Qed.

(** ** The JSON encoder *)






























Section EncoderFacts.

Variable float64 : Type.
Variable FormatFloat : float64 -> string.

Abbreviation value := (Json.value float64).
Abbreviation marshal := (Json.marshal float64 FormatFloat).

Hypothesis FormatFloat_bytes :
  forall f, forallb Json.is_number_byte (bytes (FormatFloat f)) = true.






End EncoderFacts.

(** A string of safe bytes is written as it is, between quotes. *)
Lemma escape_safe (l : list ascii) : forallb Json.safe l = true -> Json.escape 0 0 l = l.
Proof.
  induction l as [|c l IH]; [reflexivity|]. cbn [forallb]. intros H.
  apply andb_true_iff in H as [Hc Hl]. cbn [Json.escape]. rewrite Hc.
  assert (Ha : (code c <? 128)%N = true).
  { unfold Json.safe in Hc. apply andb_true_iff in Hc as [Hc _].
    apply andb_true_iff in Hc as [Hc _]. now apply andb_true_iff in Hc as [_ Hc]. }
  rewrite Ha. now rewrite IH.
Qed.

Lemma appendString_safe (s : string) :
  forallb Json.safe (bytes s) = true ->
  Json.appendString s = Json.quote :: bytes s ++ [Json.quote].
Proof. intros H. unfold Json.appendString. now rewrite escape_safe. Qed.

(** ** Parse *)

Section ParseFacts.

Variable unicode_ToLower : string -> string.
Variable shellwords_Parse : string -> string + list string.
Variable float64 : Type.
Variable ParseFloat : string -> option float64.
Variable FormatFloat : float64 -> string.

Abbreviation Parse := (Parse unicode_ToLower shellwords_Parse float64 ParseFloat FormatFloat).
Abbreviation format_body := (format_body float64 ParseFloat FormatFloat).
Abbreviation build := (build unicode_ToLower).

Lemma format_body_not_invalid (req : Request) (c : string) :
  format_body req <> inl (ErrNotValidCurlCommand c).
Proof.
  unfold format_body. destruct (String.eqb _ _); [|discriminate].
  destruct (Json.Unmarshal _ _ _); discriminate.
Qed.

(** C3: [Parse] returns the error that wraps [ErrNotValidCurlCommand],
    and so no request, exactly when the command does not start with
    "curl "; the error carries the command, and is decided before the
    splitter is called, whatever the splitter is. *)
Theorem invalid_command_iff_no_prefix (curl c : string) :
  Parse curl = inl (ErrNotValidCurlCommand c) <-> HasPrefix curl "curl " = false /\ c = curl.
Proof.
  unfold Parse. rewrite Index_zero.
  destruct (HasPrefix curl "curl "); cbn [negb]; split.
  - intros H. exfalso. destruct (shellwords_Parse curl); [discriminate|].
    now apply format_body_not_invalid in H.
  - intros [H _]. discriminate.
  - intros H. inversion H. tauto.
  - intros [_ ->]. reflexivity.
Qed.

(** [Parse] succeeds when the command has the prefix, the splitter
    succeeds, and the body can be formatted. *)
Lemma Parse_inr (curl : string) (req : Request) :
  Parse curl = inr req ->
  exists args, shellwords_Parse curl = inr args /\ format_body (build args) = inr req.
Proof.
  unfold Parse. destruct (negb _); [discriminate|].
  destruct (shellwords_Parse curl) as [e|args]; [discriminate|]. eauto.
Qed.

(** Formatting the body changes no other field. *)
Lemma format_body_fields (req req' : Request) :
  format_body req = inr req' ->
  Method req' = Method req /\ URL req' = URL req /\ Header req' = Header req
  /\ SkipTLS req' = SkipTLS req /\ Timeout req' = Timeout req.
Proof.
  unfold format_body. destruct (String.eqb _ _).
  - destruct (Json.Unmarshal _ _ _); [discriminate|]. intros H. inversion H. cbn. tauto.
  - intros H. inversion H. tauto.
Qed.

(** C4, as amended: the [url] of the request that [Parse] returns is
    the last word of the normalized sequence that begins with http://
    or https://, and the empty string when no word does. *)
Theorem url_is_last_url_word (curl : string) (args : list string) (req : Request) :
  shellwords_Parse curl = inr args ->
  Parse curl = inr req ->
  URL req = List.last (List.filter url_shaped (sanitize args)) "".
Proof.
  intros Hw Hp. apply Parse_inr in Hp as (args' & Hw' & Hf).
  rewrite Hw in Hw'. inversion Hw'. subst args'.
  apply format_body_fields in Hf as (_ & -> & _).
  unfold build. rewrite loop_URL. cbn [fst new_request URL]. f_equal.
  apply filter_ext_in. intros t Ht. apply isURL_url_shaped.
  now apply (sanitize_newline_free args).
Qed.

(** C5: every key of the header map of a request that [Parse] returns
    is free of the letters A to Z, whichever flag stored it, as long
    as Unicode lower-casing yields none of them. *)
Theorem header_keys_lowercase (curl : string) (req : Request) (k : string) :
  (forall s, no_upper (unicode_ToLower s)) ->
  Parse curl = inr req ->
  is_Some (Header req !! k) ->
  no_upper k.
Proof.
  intros Hl Hp. apply Parse_inr in Hp as (args & _ & Hf).
  apply format_body_fields in Hf as (_ & _ & -> & _).
  revert k. change (keys_lower (Header (build args))).
  apply loop_keys; [assumption|]. intros k [v Hv]. cbn in Hv.
  rewrite lookup_empty in Hv. discriminate.
Qed.

Lemma json_test (h : HeaderMap) :
  String.eqb (index_or_zero h KeyContentType) ContentTypeJSON
  = bool_decide (h !! "content-type" = Some "application/json").
Proof.
  unfold index_or_zero, KeyContentType, ContentTypeJSON.
  destruct (h !! "content-type") as [v|]; cbv [default from_option id].
  - destruct (String.eqb_spec v "application/json") as [->|Hne]; symmetry.
    + now apply bool_decide_eq_true_2.
    + apply bool_decide_eq_false_2. congruence.
  - symmetry. now apply bool_decide_eq_false_2.
Qed.

Lemma Parse_words (curl : string) (args : list string) :
  HasPrefix curl "curl " = true ->
  shellwords_Parse curl = inr args ->
  Parse curl = format_body (build args).
Proof. intros Hp Hw. unfold Parse. now rewrite Index_zero, Hp, Hw. Qed.


(** C10, as amended: under the content type application/json, a body
    that is a JSON array, string, number or boolean makes [Parse]
    return a type error and no request; the body [null] is accepted,
    and stays [null]. *)
Theorem non_object_json_body (curl : string) (args : list string) (j : Json.syntax) :
  HasPrefix curl "curl " = true ->
  shellwords_Parse curl = inr args ->
  Header (build args) !! "content-type" = Some "application/json" ->
  Json.scan (Body (build args)) = Some j ->
  match j with
  | Json.SObject _ => True
  | Json.SNull => Parse curl = inr (set_Body "null" (build args))
  | Json.SArray _ => Parse curl = inl (ErrJSON (Json.UnmarshalTypeError "array"))
  | Json.SString _ => Parse curl = inl (ErrJSON (Json.UnmarshalTypeError "string"))
  | Json.SNumber _ => Parse curl = inl (ErrJSON (Json.UnmarshalTypeError "number"))
  | Json.SBool _ => Parse curl = inl (ErrJSON (Json.UnmarshalTypeError "bool"))
  end.
Proof.
  intros Hp Hw Hct Hs. rewrite (Parse_words _ _ Hp Hw).
  unfold format_body. rewrite json_test, bool_decide_eq_true_2 by assumption.
  unfold Json.Unmarshal. rewrite Hs. now destruct j.
Qed.

End ParseFacts.

Lemma lower_bytes_lower (s : string) : no_upper (lower_bytes s).
Proof. unfold no_upper, lower_bytes. rewrite bytes_str. apply no_upper_lower_bytes. Qed.

Lemma url_is_last_url_word_witness :
  exists req, parse_example "curl http://a -k https://b" = inr req /\ URL req = "https://b".
Proof.
  eexists. split; [vm_compute; reflexivity|].
  exact (url_is_last_url_word lower_bytes words string number_text number_out
           "curl http://a -k https://b" ["curl"; "http://a"; "-k"; "https://b"] _
           eq_refl eq_refl).
Defined.

(** C4 fails as stated: with two URLs on the command line, the
    request holds the second, not the first. *)
Lemma url_is_not_first_url_word :
  ~ (forall req first,
       parse_example "curl http://a https://b" = inr req ->
       List.find url_shaped (sanitize ["curl"; "http://a"; "https://b"]) = Some first ->
       URL req = first).
Proof.
  intros H.
  specialize (H (mkRequest "GET" "https://b" ∅ "" false "") "http://a" eq_refl eq_refl).
  discriminate H.
Qed.

Lemma header_keys_lowercase_witness : no_upper "accept-encoding".
Proof.
  eapply (header_keys_lowercase lower_bytes words string number_text number_out
            "curl -H 'Accept-Encoding: gzip' -A Slothy https://x").
  - exact lower_bytes_lower.
  - vm_compute. reflexivity.
  - vm_compute. eexists. reflexivity.
Defined.

Lemma data_payload_appended_witness :
  let req := set_Body "a=1" (set_Method "HEAD" new_request) in
  let st := step lower_bytes (req, ArgData) "b=2" in
  Body (fst st) = "a=1&b=2" /\ Method (fst st) = "POST"
  /\ Header (fst st) !! "content-type" = Some "application/x-www-form-urlencoded".
Proof.
  intros req st.
  destruct (data_payload_appended lower_bytes req "b=2" eq_refl) as (_ & Hb & Hm & Hh & _).
  fold st in Hb, Hm, Hh. rewrite Hb, Hm, Hh. repeat split.
Defined.

Lemma url_keeps_pending_flag_witness :
  loop lower_bytes ["-H"; "https://x"; "Accept: a"] (new_request, NoArg)
  = (set_Header "accept" "a" (set_URL "https://x" new_request), NoArg).
Proof.
  destruct (url_keeps_pending_flag lower_bytes new_request NoArg ArgHeader
              "-H" "https://x" "Accept: a" eq_refl eq_refl eq_refl) as (_ & _ & H & _).
  exact H.
Defined.




Lemma non_object_json_body_witness :
  parse_example "curl -d [1,2] -H 'content-type: application/json' https://x"
  = inl (ErrJSON (Json.UnmarshalTypeError "array")).
Proof.
  exact (non_object_json_body lower_bytes words string number_text number_out
           "curl -d [1,2] -H 'content-type: application/json' https://x"
           ["curl"; "-d"; "[1,2]"; "-H"; "content-type: application/json"; "https://x"]
           (Json.SArray [Json.SNumber "1"; Json.SNumber "2"])
           eq_refl eq_refl eq_refl eq_refl).
Defined.

(** C10 fails as stated: [null] is a JSON value and not an object,
    and [Parse] returns a request. *)
Lemma null_body_not_rejected :
  ~ (forall j,
       Json.scan "null" = Some j ->
       (forall members, j <> Json.SObject members) ->
       exists e, parse_example "curl -d null -H 'content-type: application/json' https://x"
                 = inl e).
Proof.
  intros H. destruct (H Json.SNull eq_refl) as [e He]; [discriminate|].
  vm_compute in He. discriminate He.
Qed.

(** ** The table of [TestParse]

    The cases of the package's test, run through the example
    instances. *)

Example test_simple_get :
  parse_example "curl https://api.site.com"
  = inr (mkRequest "GET" "https://api.site.com" ∅ "" false "").
Proof. vm_compute. reflexivity. Qed.

Example test_simple_put :
  parse_example "curl -XPUT https://api.site.com/sloth/4"
  = inr (mkRequest "PUT" "https://api.site.com/sloth/4" ∅ "" false "").
Proof. vm_compute. reflexivity. Qed.

Example test_encoding_gzip :
  parse_example ("curl -H " +:+ dq +:+ "Accept-Encoding: gzip" +:+ dq
                 +:+ " --compressed http://api.site.com")
  = inr (mkRequest "GET" "http://api.site.com" {["accept-encoding" := "gzip"]} "" false "").
Proof. vm_compute. reflexivity. Qed.

Example test_delete :
  parse_example "curl -X DELETE https://api.site.com/sloth/4"
  = inr (mkRequest "DELETE" "https://api.site.com/sloth/4" ∅ "" false "").
Proof. vm_compute. reflexivity. Qed.

Example test_url_encoded_data :
  parse_example ("curl -d " +:+ dq +:+ "foo=bar" +:+ dq +:+ " https://api.site.com/sloth/4")
  = inr (mkRequest "POST" "https://api.site.com/sloth/4"
           {["content-type" := "application/x-www-form-urlencoded"]} "foo=bar" false "").
Proof. vm_compute. reflexivity. Qed.

Example test_user_agent :
  parse_example ("curl -H " +:+ dq +:+ "Accept: text/plain" +:+ dq +:+ " --header " +:+ dq
                 +:+ "User-Agent: slothy" +:+ dq +:+ " https://api.site.com")
  = inr (mkRequest "GET" "https://api.site.com"
           (<["accept" := "text/plain"]> {["user-agent" := "slothy"]}) "" false "").
Proof. vm_compute. reflexivity. Qed.

Example test_cookie :
  parse_example "curl --cookie 'species=sloth;type=galactic' slothy https://api.site.com"
  = inr (mkRequest "GET" "https://api.site.com"
           {["cookie" := "species=sloth;type=galactic"]} "" false "").
Proof. vm_compute. reflexivity. Qed.

Example test_location :
  parse_example "curl --location --request GET 'https://api.site.com/users?token=admin'"
  = inr (mkRequest "GET" "https://api.site.com/users?token=admin" ∅ "" false "").
Proof. vm_compute. reflexivity. Qed.

Example test_timeout_skip_tls :
  parse_example "curl --max-time 30 -k 'https://api.site.com/users?token=admin'"
  = inr (mkRequest "GET" "https://api.site.com/users?token=admin" ∅ "" true "30").
Proof. vm_compute. reflexivity. Qed.

Example test_repeated_data :
  parse_example "curl -d 'foo=bar&bar=foo' -d 'q=GoogleQuery' https://api.site.com/sloth/4"
  = inr (mkRequest "POST" "https://api.site.com/sloth/4"
           {["content-type" := "application/x-www-form-urlencoded"]}
           "foo=bar&bar=foo&q=GoogleQuery" false "").
Proof. vm_compute. reflexivity. Qed.

Example test_custom_authorization :
  parse_example "curl -H 'Authorization: Token some-custom-auth' https://api.site.com/sloth/4"
  = inr (mkRequest "GET" "https://api.site.com/sloth/4"
           {["authorization" := "Token some-custom-auth"]} "" false "").
Proof. vm_compute. reflexivity. Qed.

Example test_basic_auth :
  parse_example "curl -u name:pass https://x"
  = inr (mkRequest "GET" "https://x" {["authorization" := "Basic bmFtZTpwYXNz"]} "" false "").
Proof. vm_compute. reflexivity. Qed.

(** The case with a JSON content type and no data: the empty body is
    not a JSON text, and [Parse] returns the error of the decoder. *)
Example test_json_content_type_without_body :
  parse_example ("curl -H " +:+ dq +:+ "Content-Type: application/json" +:+ dq
                 +:+ " https://api.site.com")
  = inl (ErrJSON Json.SyntaxError).
Proof. vm_compute. reflexivity. Qed.

(** * Further properties of the code *)

(** ** The loop of [Parse] *)

Section LoopFacts.

Variable unicode_ToLower : string -> string.

Abbreviation step := (step unicode_ToLower).
Abbreviation loop := (loop unicode_ToLower).
Abbreviation consume := (consume unicode_ToLower).

Lemma loop_cons (a : string) (toks : list string) (st : Request * argType) :
  loop (a :: toks) st = loop toks (step st a).
Proof. reflexivity. Qed.

Lemma loop_app (a b : list string) (st : Request * argType) :
  loop (a ++ b) st = loop b (loop a st).
Proof. apply fold_left_app. Qed.

Lemma is_flag_true (arg a b : string) : is_flag arg a b = true -> arg = a \/ arg = b.
Proof.
  unfold is_flag. intros H. apply orb_true_iff in H as [H|H]; apply String.eqb_eq in H; auto.
Qed.

Lemma step_head (req : Request) (t : argType) (arg : string) :
  is_flag arg "-I" "--head" = true -> step (req, t) arg = (set_Method "HEAD" req, t).
Proof. intros H. apply is_flag_true in H as [->| ->]; reflexivity. Qed.

Lemma step_insecure (req : Request) (t : argType) (arg : string) :
  is_flag arg "-k" "--insecure" = true -> step (req, t) arg = (set_SkipTLS true req, t).
Proof. intros H. apply is_flag_true in H as [->| ->]; reflexivity. Qed.

(** Words of the [default] case do nothing once nothing is awaited. *)
Lemma loop_idle (toks : list string) (req : Request) :
  Forall (fun w => payload w = true) toks -> loop toks (req, NoArg) = (req, NoArg).
Proof.
  induction 1 as [|w toks Hw _ IH]; [reflexivity|].
  now rewrite loop_cons, (step_payload _ _ _ _ Hw).
Qed.

(** X1: a value-taking flag that comes while another flag awaits its
    value replaces it: the first flag has no effect, and the next word
    of the [default] case is the payload of the second. *)
Theorem pending_flag_replaced (req : Request) (t k1 k2 : argType) (f1 f2 tok : string) :
  flag_kind f1 = Some k1 ->
  flag_kind f2 = Some k2 ->
  payload tok = true ->
  loop [f1; f2; tok] (req, t) = (consume k2 tok req, NoArg).
Proof.
  intros H1 H2 Hp. rewrite !loop_cons, (step_flag _ _ _ _ _ H1), (step_flag _ _ _ _ _ H2).
  rewrite (step_payload _ _ _ _ Hp). cbn [loop fold_left]. now destruct k2.
Qed.

(** X2: a flag takes one word only: after its payload, the words of
    the [default] case that follow are dropped. *)
Theorem one_payload_per_flag (req : Request) (t : argType) (tok : string) (more : list string) :
  payload tok = true ->
  Forall (fun w => payload w = true) more ->
  loop (tok :: more) (req, t) = (consume t tok req, NoArg).
Proof.
  intros Hp Hm. rewrite loop_cons, (step_payload _ _ _ _ Hp).
  destruct t; now rewrite loop_idle.
Qed.

(** *** Fields that only their flags change *)

Lemma consume_Method (t : argType) (arg : string) (req : Request) :
  t <> ArgData -> t <> ArgMethod -> Method (consume t arg req) = Method req.
Proof.
  intros Hd Hm. destruct t; try reflexivity; try contradiction.
  simpl. now destruct (Cut arg ":") as [[? ?] ?].
Qed.

Lemma consume_Timeout (t : argType) (arg : string) (req : Request) :
  t <> ArgTimeout -> Timeout (consume t arg req) = Timeout req.
Proof.
  intros Ht. destruct t; try reflexivity; try contradiction.
  - simpl. now destruct (Cut arg ":") as [[? ?] ?].
  - now rewrite consume_data.
Qed.

Lemma consume_Body (t : argType) (arg : string) (req : Request) :
  t <> ArgData -> Body (consume t arg req) = Body req.
Proof.
  intros Ht. destruct t; try reflexivity; try contradiction.
  simpl. now destruct (Cut arg ":") as [[? ?] ?].
Qed.

Lemma consume_SkipTLS (t : argType) (arg : string) (req : Request) :
  SkipTLS (consume t arg req) = SkipTLS req.
Proof.
  destruct t; try reflexivity.
  - simpl. now destruct (Cut arg ":") as [[? ?] ?].
  - now rewrite consume_data.
Qed.

Lemma step_Method_kept (req : Request) (t : argType) (arg : string) :
  sets_method arg = false -> t <> ArgData -> t <> ArgMethod ->
  Method (fst (step (req, t) arg)) = Method req
  /\ snd (step (req, t) arg) <> ArgData /\ snd (step (req, t) arg) <> ArgMethod.
Proof.
  intros H Hd Hm. unfold sets_method in H.
  apply orb_false_elim in H as [H Hdata]. apply orb_false_elim in H as [Hhead Hx].
  unfold step. rewrite Hdata, Hhead, Hx.
  repeat match goal with
         | |- context [if ?b then _ else _] => destruct b
         end; cbn [fst snd]; try (repeat split; (reflexivity || assumption || discriminate)).
  destruct t; cbn [fst snd]; repeat split; try discriminate; try contradiction;
    try reflexivity; now apply consume_Method.
Qed.

Lemma loop_Method_kept (toks : list string) (req : Request) (t : argType) :
  Forall (fun w => sets_method w = false) toks -> t <> ArgData -> t <> ArgMethod ->
  Method (fst (loop toks (req, t))) = Method req.
Proof.
  intros H. revert req t. induction H as [|w toks Hw _ IH]; intros req t Hd Hm; [reflexivity|].
  rewrite loop_cons. destruct (step_Method_kept req t w Hw Hd Hm) as (E & Hd' & Hm').
  destruct (step (req, t) w) as [req' t']. cbn [fst snd] in *. now rewrite IH.
Qed.

Lemma step_Timeout_kept (req : Request) (t : argType) (arg : string) :
  is_flag arg "-m" "--max-time" = false -> t <> ArgTimeout ->
  Timeout (fst (step (req, t) arg)) = Timeout req /\ snd (step (req, t) arg) <> ArgTimeout.
Proof.
  intros H Ht. unfold step. rewrite H.
  repeat match goal with
         | |- context [if ?b then _ else _] => destruct b
         end; cbn [fst snd]; try (repeat split; (reflexivity || assumption || discriminate)).
  destruct t; cbn [fst snd]; repeat split; try discriminate; try contradiction;
    try reflexivity; now apply consume_Timeout.
Qed.

Lemma loop_Timeout_kept (toks : list string) (req : Request) (t : argType) :
  Forall (fun w => is_flag w "-m" "--max-time" = false) toks -> t <> ArgTimeout ->
  Timeout (fst (loop toks (req, t))) = Timeout req.
Proof.
  intros H. revert req t. induction H as [|w toks Hw _ IH]; intros req t Ht; [reflexivity|].
  rewrite loop_cons. destruct (step_Timeout_kept req t w Hw Ht) as (E & Ht').
  destruct (step (req, t) w) as [req' t']. cbn [fst snd] in *. now rewrite IH.
Qed.

Lemma step_Body_kept (req : Request) (t : argType) (arg : string) :
  is_data_flag arg = false -> t <> ArgData ->
  Body (fst (step (req, t) arg)) = Body req /\ snd (step (req, t) arg) <> ArgData.
Proof.
  intros H Ht. unfold step. rewrite H.
  repeat match goal with
         | |- context [if ?b then _ else _] => destruct b
         end; cbn [fst snd]; try (repeat split; (reflexivity || assumption || discriminate)).
  destruct t; cbn [fst snd]; repeat split; try discriminate; try contradiction;
    try reflexivity; now apply consume_Body.
Qed.

Lemma loop_Body_kept (toks : list string) (req : Request) (t : argType) :
  Forall (fun w => is_data_flag w = false) toks -> t <> ArgData ->
  Body (fst (loop toks (req, t))) = Body req.
Proof.
  intros H. revert req t. induction H as [|w toks Hw _ IH]; intros req t Ht; [reflexivity|].
  rewrite loop_cons. destruct (step_Body_kept req t w Hw Ht) as (E & Ht').
  destruct (step (req, t) w) as [req' t']. cbn [fst snd] in *. now rewrite IH.
Qed.

(** [skip_tls] is set by the insecure flag and by nothing else, and is
    never reset. *)
Lemma step_SkipTLS (req : Request) (t : argType) (arg : string) :
  SkipTLS (fst (step (req, t) arg)) = SkipTLS req || is_flag arg "-k" "--insecure".
Proof.
  destruct (is_flag arg "-k" "--insecure") eqn:Hk.
  - rewrite (step_insecure _ _ _ Hk). cbn. now rewrite orb_true_r.
  - rewrite orb_false_r. unfold step. rewrite Hk.
    repeat match goal with
           | |- context [if ?b then _ else _] => destruct b
           end; cbn [fst snd]; try reflexivity.
    destruct t; cbn [fst]; try reflexivity; apply consume_SkipTLS.
Qed.

Lemma loop_SkipTLS (toks : list string) (st : Request * argType) :
  SkipTLS (fst (loop toks st))
  = SkipTLS (fst st) || existsb (fun w => is_flag w "-k" "--insecure") toks.
Proof.
  revert st. induction toks as [|w toks IH]; intros [req t].
  - cbn. now rewrite orb_false_r.
  - rewrite loop_cons, IH, step_SkipTLS. cbn [fst existsb]. now rewrite orb_assoc.
Qed.

(** X3: after the head flag the method is HEAD, as long as no data or
    request flag is pending then or comes later. *)
Theorem head_flag_sets_method (req : Request) (t : argType) (flag : string)
    (after : list string) :
  is_flag flag "-I" "--head" = true ->
  t <> ArgData -> t <> ArgMethod ->
  Forall (fun w => is_flag w "-X" "--request" = false /\ is_data_flag w = false) after ->
  Method (fst (loop (flag :: after) (req, t))) = "HEAD".
Proof.
  intros Hf Hd Hm Ha. rewrite loop_cons, (step_head _ _ _ Hf).
  induction Ha as [|w after [Hx Hdata] _ IH] in req, t, Hd, Hm |- *; [reflexivity|].
  rewrite loop_cons.
  destruct (is_flag w "-I" "--head") eqn:Hh.
  - rewrite (step_head _ _ _ Hh). now apply (IH (set_Method "HEAD" req)).
  - assert (Hw : sets_method w = false) by (unfold sets_method; now rewrite Hh, Hx, Hdata).
    destruct (step_Method_kept (set_Method "HEAD" req) t w Hw Hd Hm) as (E & Hd' & Hm').
    destruct (step (set_Method "HEAD" req, t) w) as [req' t']. cbn [fst snd] in *.
    replace req' with (set_Method "HEAD" req'); [now apply IH|].
    destruct req'. cbn in *. now subst.
Qed.

End LoopFacts.

(** ** [Parse], from the words to the request *)

Section ParseMore.

Variable unicode_ToLower : string -> string.
Variable shellwords_Parse : string -> string + list string.
Variable float64 : Type.
Variable ParseFloat : string -> option float64.
Variable FormatFloat : float64 -> string.

Abbreviation Parse := (Parse unicode_ToLower shellwords_Parse float64 ParseFloat FormatFloat).
Abbreviation format_body := (format_body float64 ParseFloat FormatFloat).
Abbreviation build := (build unicode_ToLower).

Lemma Parse_built (curl : string) (args : list string) (req : Request) :
  shellwords_Parse curl = inr args ->
  Parse curl = inr req ->
  format_body (build args) = inr req.
Proof.
  intros Hw Hp. apply Parse_inr in Hp as (args' & Hw' & Hf).
  rewrite Hw in Hw'. now inversion Hw'; subst.
Qed.

(** X4: without a head, request or data flag among the normalized
    words, the method of the request is GET. *)
Theorem method_defaults_to_get (curl : string) (args : list string) (req : Request) :
  shellwords_Parse curl = inr args ->
  Parse curl = inr req ->
  Forall (fun w => sets_method w = false) (sanitize args) ->
  Method req = "GET".
Proof.
  intros Hw Hp Hn. apply (Parse_built _ _ _ Hw), format_body_fields in Hp as (-> & _).
  unfold build. now rewrite loop_Method_kept.
Qed.

(** X5: the request skips TLS verification exactly when one of the
    normalized words is the insecure flag, wherever it stands. *)
Theorem skip_tls_iff_insecure_flag (curl : string) (args : list string) (req : Request) :
  shellwords_Parse curl = inr args ->
  Parse curl = inr req ->
  SkipTLS req = existsb (fun w => is_flag w "-k" "--insecure") (sanitize args).
Proof.
  intros Hw Hp. apply (Parse_built _ _ _ Hw), format_body_fields in Hp as (_ & _ & _ & -> & _).
  unfold build. now rewrite loop_SkipTLS.
Qed.

(** X6: without a max-time flag among the normalized words, the
    timeout of the request is empty. *)
Theorem timeout_needs_max_time_flag (curl : string) (args : list string) (req : Request) :
  shellwords_Parse curl = inr args ->
  Parse curl = inr req ->
  Forall (fun w => is_flag w "-m" "--max-time" = false) (sanitize args) ->
  Timeout req = "".
Proof.
  intros Hw Hp Hn. apply (Parse_built _ _ _ Hw), format_body_fields in Hp as (_ & _ & _ & _ & ->).
  unfold build. now rewrite loop_Timeout_kept.
Qed.

Lemma Unmarshal_empty : Json.Unmarshal float64 ParseFloat "" = inl Json.SyntaxError.
Proof. reflexivity. Qed.

Lemma build_Body_empty (args : list string) :
  Forall (fun w => is_data_flag w = false) (sanitize args) -> Body (build args) = "".
Proof. intros H. unfold build. now rewrite loop_Body_kept. Qed.

(** X7: without a data flag among the normalized words, the body of
    the request that [Parse] returns is empty. *)
Theorem body_needs_data_flag (curl : string) (args : list string) (req : Request) :
  shellwords_Parse curl = inr args ->
  Parse curl = inr req ->
  Forall (fun w => is_data_flag w = false) (sanitize args) ->
  Body req = "".
Proof.
  intros Hw Hp Hn. apply (Parse_built _ _ _ Hw) in Hp.
  pose proof (build_Body_empty args Hn) as Hb.
  unfold format_body in Hp. rewrite Hb, Unmarshal_empty in Hp.
  destruct (String.eqb _ _); [discriminate|]. inversion Hp. now subst.
Qed.

(** X9: the three ways [Parse] fails, and no other: the command lacks
    the prefix; the splitter fails, and its error is returned; or the
    content type is application/json and the body does not decode, and
    the error of the decoder is returned. *)
Theorem Parse_error_cases (curl : string) (err : parse_error) :
  Parse curl = inl err <->
  (HasPrefix curl "curl " = false /\ err = ErrNotValidCurlCommand curl)
  \/ (HasPrefix curl "curl " = true
      /\ exists e, shellwords_Parse curl = inl e /\ err = ErrShellwords e)
  \/ (HasPrefix curl "curl " = true
      /\ exists args e,
           shellwords_Parse curl = inr args
           /\ Header (build args) !! "content-type" = Some "application/json"
           /\ Json.Unmarshal float64 ParseFloat (Body (build args)) = inl e
           /\ err = ErrJSON e).
Proof.
  unfold Parse. rewrite Index_zero.
  destruct (HasPrefix curl "curl ") eqn:Hp; cbn [negb].
  - destruct (shellwords_Parse curl) as [e|args] eqn:Hw.
    + split.
      * intros H. inversion H. right. left. eauto.
      * intros [[? _]|[(_ & e' & He & ->)|(_ & a & e' & He & _)]]; try discriminate.
        now inversion He.
    + unfold format_body. rewrite json_test. split.
      * case_bool_decide as Hct; [|discriminate].
        destruct (Json.Unmarshal _ _ _) as [e|d] eqn:Hu; [|discriminate].
        intros H. inversion H. right. right. split; [reflexivity|]. now exists args, e.
      * intros [[? _]|[(_ & e' & He & _)|(_ & a & e' & He & Hct & Hu & ->)]]; try discriminate.
        inversion He. subst a. now rewrite bool_decide_eq_true_2, Hu.
  - split.
    + intros H. inversion H. now left.
    + intros [[_ ->]|[(? & _)|(? & _)]]; try discriminate. reflexivity.
Qed.

End ParseMore.

(** ** Repeated data flags, and the content type *)

Lemma append_assoc (a b c : string) : (a +:+ b) +:+ c = a +:+ b +:+ c.
Proof. apply bytes_inj. now rewrite !bytes_app, app_assoc. Qed.

Lemma data_flag_kind (f : string) : is_data_flag f = true -> flag_kind f = Some ArgData.
Proof.
  unfold is_data_flag. intros H.
  repeat (apply orb_true_iff in H as [H|H]); apply String.eqb_eq in H; subst; reflexivity.
Qed.

(** Joining with an ampersand what the data case has accumulated. *)
Lemma add_data_concat (ps : list string) (b : string) :
  b <> "" -> Forall (fun p => p <> "") ps ->
  fold_left add_data ps b = String.concat "&" (b :: ps).
Proof.
  intros Hb H. revert b Hb. induction H as [|p ps Hp _ IH]; intros b Hb; [reflexivity|].
  cbn [fold_left]. unfold add_data at 2. rewrite body_test, bool_decide_eq_false_2 by assumption.
  rewrite IH by (destruct b; [contradiction | discriminate]).
  destruct ps as [|q ps]; [reflexivity|].
  change (String.concat "&" ((b +:+ "&" +:+ p) :: q :: ps))
    with ((b +:+ "&" +:+ p) +:+ "&" +:+ String.concat "&" (q :: ps)).
  change (String.concat "&" (b :: p :: q :: ps))
    with (b +:+ "&" +:+ p +:+ "&" +:+ String.concat "&" (q :: ps)).
  now rewrite !append_assoc.
Qed.

Section DataFacts.

Variable unicode_ToLower : string -> string.

Abbreviation step := (step unicode_ToLower).
Abbreviation loop := (loop unicode_ToLower).
Abbreviation consume := (consume unicode_ToLower).
Abbreviation ToLower := (ToLower unicode_ToLower).

Lemma loop_data_pairs (pairs : list (string * string)) (req : Request) (t : argType) :
  Forall (fun fp => is_data_flag (fst fp) = true /\ payload (snd fp) = true) pairs ->
  Body (fst (loop (flat_map (fun fp => [fst fp; snd fp]) pairs) (req, t)))
  = fold_left add_data (map snd pairs) (Body req).
Proof.
  intros H. revert req t. induction H as [|[f p] pairs [Hf Hp] _ IH]; intros req t; [reflexivity|].
  cbn [flat_map app fst snd map fold_left]. rewrite !loop_cons.
  rewrite (step_flag _ _ _ _ _ (data_flag_kind _ Hf)), (step_payload _ _ _ _ Hp).
  rewrite IH. f_equal. now rewrite consume_data.
Qed.

(** X10: repeated data flags accumulate: starting from an empty body,
    the body after any number of data flags with non-empty payloads is
    the payloads joined by ampersands, in their order. *)
Theorem data_payloads_joined (pairs : list (string * string)) (req : Request) (t : argType) :
  Forall (fun fp => is_data_flag (fst fp) = true /\ payload (snd fp) = true /\ snd fp <> "")
         pairs ->
  Body req = "" ->
  Body (fst (loop (flat_map (fun fp => [fst fp; snd fp]) pairs) (req, t)))
  = String.concat "&" (map snd pairs).
Proof.
  intros H Hb. rewrite loop_data_pairs by (eapply List.Forall_impl; [|exact H]; intros ? (? & ? & ?); auto).
  rewrite Hb. destruct pairs as [|[f p] pairs]; [reflexivity|].
  inversion H as [|? ? (_ & _ & Hp) Hrest]. subst. cbn [map fold_left snd] in *.
  unfold add_data at 2. cbn [String.length Nat.eqb].
  apply add_data_concat; [assumption|].
  apply Forall_map. eapply List.Forall_impl; [|exact Hrest]. intros ? (? & ? & ?). assumption.
Qed.

(** [Cut] gives back the two parts of a key and a value joined by a
    colon, when the key holds no colon. *)
Lemma Cut_join (k v : string) : ~ In colon (bytes k) -> Cut (k +:+ ":" +:+ v) ":" = (k, v, true).
Proof.
  unfold Cut. induction k as [|c k IH]; intros Hk.
  - change ("" +:+ ":" +:+ v) with (String ":" v). cbn [Cut_from HasPrefix].
    rewrite Ascii.eqb_refl, HasPrefix_nil. cbn [andb String.length Nat.sub substring].
    now rewrite Nat.sub_0_r, substring_all.
  - change (String c k +:+ ":" +:+ v) with (String c (k +:+ ":" +:+ v)).
    cbn [Cut_from HasPrefix]. rewrite HasPrefix_nil, andb_true_r.
    destruct (Ascii.eqb_spec ":"%char c) as [<-|Hc]; [exfalso; apply Hk; now left|].
    specialize (IH (fun H => Hk (or_intror H))).
    destruct (Cut_from (k +:+ ":" +:+ v) ":") as [[b a]|]; [|discriminate].
    now inversion IH.
Qed.

(** X11: a content-type header given on the command line wins over the
    default of the data flag, whether it comes before the data or
    after it. *)
Theorem explicit_content_type_wins (req : Request) (t : argType) (k v p : string) :
  ~ In colon (bytes k) ->
  ToLower k = "content-type" ->
  payload (k +:+ ":" +:+ v) = true ->
  payload p = true ->
  Header (fst (loop ["-H"; k +:+ ":" +:+ v; "-d"; p] (req, t))) !! "content-type"
    = Some (TrimSpace v)
  /\ Header (fst (loop ["-d"; p; "-H"; k +:+ ":" +:+ v] (req, t))) !! "content-type"
    = Some (TrimSpace v).
Proof.
  intros Hk Hl Hh Hp.
  assert (HH : forall r, consume ArgHeader (k +:+ ":" +:+ v) r
                         = set_Header "content-type" (TrimSpace v) r).
  { intros r. unfold consume. now rewrite (Cut_join k v Hk), Hl. }
  split.
  - rewrite !loop_cons, (step_flag _ _ _ "-H" ArgHeader eq_refl), (step_payload _ _ _ _ Hh), HH.
    rewrite (step_flag _ _ _ "-d" ArgData eq_refl), (step_payload _ _ _ _ Hp).
    cbn [loop fold_left fst]. rewrite consume_data. cbn [Header set_Header].
    unfold KeyContentType. rewrite lookup_insert_eq. apply lookup_insert_eq.
  - rewrite !loop_cons, (step_flag _ _ _ "-d" ArgData eq_refl), (step_payload _ _ _ _ Hp).
    rewrite (step_flag _ _ _ "-H" ArgHeader eq_refl), (step_payload _ _ _ _ Hh), HH.
    cbn. apply lookup_insert_eq.
Qed.

End DataFacts.

(** ** [sanitize], word by word *)

(** X12: [sanitize] treats each word on its own: the result is the
    concatenation, in order, of what it makes of each word. *)
Theorem sanitize_word_by_word (args : list string) :
  sanitize args = flat_map (fun w => sanitize [w]) args.
Proof.
  induction args as [|w args IH]; [reflexivity|].
  rewrite sanitize_cons, IH. reflexivity.
Qed.

(** X13: no word that [sanitize] emits holds a newline. *)
Theorem sanitize_words_newline_free (args : list string) :
  Forall (fun t => ~ In NL (bytes t)) (sanitize args).
Proof. apply List.Forall_forall. intros t. apply sanitize_newline_free. Qed.

Lemma ReplaceAll_none (s : string) : Contains s nl = false -> ReplaceAll s nl "" = s.
Proof.
  intros H. apply not_Contains_newline in H. apply bytes_inj. rewrite ReplaceAll_newline.
  induction (bytes s) as [|c l IH]; [reflexivity|]. cbn [List.filter].
  destruct (Ascii.eqb_spec NL c) as [<-|_]; [exfalso; apply H; now left|].
  cbn [negb]. f_equal. apply IH. intros Hin. apply H. now right.
Qed.

Lemma length_bytes (s : string) : List.length (bytes s) = String.length s.
Proof. unfold bytes. induction s as [|c s IH]; [reflexivity|]. cbn. now rewrite IH. Qed.

Lemma substring_split (n : nat) (s : string) :
  substring 0 n s +:+ substring n (String.length s - n) s = s.
Proof.
  apply bytes_inj. rewrite bytes_app, !bytes_substring. cbn [skipn].
  rewrite <- length_bytes, <- length_skipn, firstn_all. apply firstn_skipn.
Qed.

(** X14: [sanitize] only trims, removes newlines and splits: the words
    it emits for one word, put end to end, are that word trimmed and
    freed of its newlines. *)
Theorem sanitize_keeps_the_text (w : string) :
  String.concat "" (sanitize [w]) = ReplaceAll (TrimSpace w) nl "".
Proof.
  cbn [sanitize]. rewrite TrimSpace_not_newline.
  destruct (Contains (TrimSpace w) nl) eqn:E.
  - destruct (HasPrefix _ "-X" && _); [|reflexivity]. cbn [String.concat]. apply substring_split.
  - rewrite (ReplaceAll_none _ E).
    destruct (HasPrefix _ "-X" && _); [|reflexivity]. cbn [String.concat]. apply substring_split.
Qed.




(** ** The helpers of the earlier revision *)

Lemma Index_from_colon (k v : string) (i : Z) :
  ~ In colon (bytes k) ->
  Index_from i (k +:+ ":" +:+ v) ":" = (i + Z.of_nat (String.length k))%Z.
Proof.
  revert i. induction k as [|c k IH]; intros i Hk.
  - change ("" +:+ ":" +:+ v) with (String ":" v). cbn [Index_from HasPrefix].
    rewrite Ascii.eqb_refl, HasPrefix_nil. cbn. lia.
  - change (String c k +:+ ":" +:+ v) with (String c (k +:+ ":" +:+ v)).
    cbn [Index_from HasPrefix]. rewrite HasPrefix_nil, andb_true_r.
    destruct (Ascii.eqb_spec ":"%char c) as [<-|Hc]; [exfalso; apply Hk; now left|].
    rewrite IH by (intros H; apply Hk; now right). cbn [String.length]. lia.
Qed.

Lemma Index_from_no_colon (s : string) (i : Z) :
  ~ In colon (bytes s) -> Index_from i s ":" = (-1)%Z.
Proof.
  revert i. induction s as [|c s IH]; intros i Hs; [reflexivity|].
  cbn [Index_from HasPrefix]. rewrite HasPrefix_nil, andb_true_r.
  destruct (Ascii.eqb_spec ":"%char c) as [<-|Hc]; [exfalso; apply Hs; now left|].
  apply IH. intros H. apply Hs. now right.
Qed.

Lemma length_append (a b : string) :
  String.length (a +:+ b) = String.length a + String.length b.
Proof. rewrite <- !length_bytes, bytes_app. apply length_app. Qed.

Lemma substring_head (a b : string) : substring 0 (String.length a) (a +:+ b) = a.
Proof.
  apply bytes_inj. rewrite bytes_substring, bytes_app, <- length_bytes, skipn_O.
  rewrite firstn_app, Nat.sub_diag, firstn_all. cbn. apply app_nil_r.
Qed.

Lemma substring_tail (a b : string) :
  substring (String.length a) (String.length b) (a +:+ b) = b.
Proof.
  apply bytes_inj. rewrite bytes_substring, bytes_app, <- !length_bytes.
  rewrite skipn_app, skipn_all, Nat.sub_diag. cbn. apply firstn_all.
Qed.

Lemma slice_in_bounds (s : string) (lo hi : Z) :
  (0 <= lo <= hi)%Z -> (hi <= Z.of_nat (String.length s))%Z ->
  slice s lo hi = Some (substring (Z.to_nat lo) (Z.to_nat (hi - lo)) s).
Proof.
  intros H1 H2. unfold slice.
  replace (_ && _ && _)%Z with true; [reflexivity|].
  symmetry. rewrite !andb_true_iff, !Z.leb_le. lia.
Qed.

Lemma slice_out_of_bounds (s : string) (lo hi : Z) :
  (lo < 0 \/ hi < lo \/ Z.of_nat (String.length s) < hi)%Z -> slice s lo hi = None.
Proof.
  intros H. unfold slice.
  replace (_ && _ && _)%Z with false; [reflexivity|].
  symmetry. rewrite !andb_false_iff, !Z.leb_gt. lia.
Qed.

(** X16: [parseField] panics when the word has no colon, and when its
    first colon is its last byte; otherwise it returns the text before
    the first colon and the text after the byte that follows the colon,
    whatever that byte is. *)
Theorem parseField_cases (arg : string) :
  match parseField arg with
  | Some l =>
      exists k c v, l = [k; v] /\ arg = k +:+ ":" +:+ String c v /\ ~ In colon (bytes k)
  | None =>
      ~ In colon (bytes arg) \/ exists k, arg = k +:+ ":" /\ ~ In colon (bytes k)
  end.
Proof.
  pose proof (Cut_colon arg) as H. destruct (Cut arg ":") as [[k v] [|]].
  - destruct H as [-> Hk]. unfold parseField, Index. rewrite Index_from_colon by assumption.
    rewrite slice_in_bounds by (rewrite ?length_append; lia).
    replace (Z.to_nat (0 + Z.of_nat (String.length k) - 0)) with (String.length k) by lia.
    cbn [Z.to_nat]. rewrite substring_head.
    destruct v as [|c v].
    + rewrite slice_out_of_bounds by (rewrite ?length_append; cbn [String.length]; lia).
      right. now exists k.
    + rewrite slice_in_bounds by (rewrite ?length_append; cbn [String.length]; lia).
      exists k, c, v. repeat split; [|assumption]. do 3 f_equal.
      replace (Z.to_nat (0 + Z.of_nat (String.length k) + 2))
        with (String.length (k +:+ ":" +:+ String c ""))
        by (rewrite !length_append; cbn [String.length]; lia).
      replace (Z.to_nat _) with (String.length v)
        by (rewrite !length_append; cbn [String.length]; lia).
      replace (k +:+ ":" +:+ String c v) with ((k +:+ ":" +:+ String c "") +:+ v)
        by (now rewrite !append_assoc).
      apply substring_tail.
  - destruct H as (_ & _ & Hn). unfold parseField, Index. rewrite Index_from_no_colon by assumption.
    left. exact Hn.
Qed.

Lemma only_flag (c : string) :
  HasPrefix c "-X" = true -> (2 <? String.length c)%nat = false -> c = "-X".
Proof.
  destruct c as [|a [|b [|d c]]]; cbn [HasPrefix String.length Nat.ltb Nat.leb];
    try discriminate.
  - now rewrite andb_false_r.
  - intros H _. rewrite andb_true_r in H. apply andb_true_iff in H as [Ha Hb].
    apply Ascii.eqb_eq in Ha, Hb. now subst.
Qed.

(** X17: [rewrite], the normalizer of the earlier revision, emits the
    same non-empty words as [sanitize]; they differ on a bare [-X],
    after which [rewrite] adds an empty word. *)
Theorem rewrite_sanitize_same_words (args : list string) :
  List.filter nonempty (rewrite args) = List.filter nonempty (sanitize args)
  /\ rewrite ["-X"] = ["-X"; ""] /\ sanitize ["-X"] = ["-X"].
Proof.
  split; [|split; reflexivity].
  induction args as [|a args IH]; [reflexivity|].
  cbn [rewrite sanitize]. rewrite TrimSpace_not_newline.
  set (c := if Contains _ nl then _ else _). clearbody c.
  rewrite Index_zero. destruct (HasPrefix c "-X") eqn:Hp; cbn [andb].
  - destruct (2 <? String.length c)%nat eqn:Hl.
    + cbn [List.filter]. now rewrite IH.
    + rewrite (only_flag c Hp Hl). cbn. now rewrite IH.
  - cbn [List.filter]. now rewrite IH.
Qed.

Lemma rewrite_newline_free (args : list string) (t : string) :
  In t (rewrite args) -> ~ In NL (bytes t).
Proof.
  induction args as [|a args IH]; [intros []|].
  cbn [rewrite]. rewrite TrimSpace_not_newline.
  set (arg := if Contains _ nl then _ else _).
  assert (Harg : ~ In NL (bytes arg)).
  { subst arg. destruct (Contains (TrimSpace a) nl) eqn:E.
    - apply ReplaceAll_newline_free.
    - now apply not_Contains_newline. }
  destruct (Index arg "-X" =? 0)%Z; cbn [In]; intros H.
  - destruct H as [<-|[<-|H]]; [now apply substring_newline_free.. | now apply IH].
  - destruct H as [<-|H]; [assumption | now apply IH].
Qed.

(** X18: [isURL] accepts only words that [validURL], the test of the
    earlier revision, accepts, and the two agree on every word that
    [sanitize] or [rewrite] emits. *)
Theorem isURL_validURL (args : list string) (t : string) :
  (isURL t = true -> validURL t = true)
  /\ (In t (sanitize args) \/ In t (rewrite args) -> isURL t = validURL t).
Proof.
  split.
  - unfold isURL, validURL. intros H. now apply andb_true_iff in H as [H _].
  - intros [H|H]; apply isURL_url_shaped;
      [now apply (sanitize_newline_free args) | now apply (rewrite_newline_free args)].
Qed.

(** ** The decoded map *)

Section DecodedFacts.

Variable float64 : Type.
Variable ParseFloat : string -> option float64.

Abbreviation value := (Json.value float64).

Lemma put_HdRel (k0 : string) (v0 : value) (k : string) (v : value)
    (m : list (string * value)) :
  String.compare k0 k = Lt -> HdRel key_lt (k0, v0) m ->
  HdRel key_lt (k0, v0) (Json.put float64 k v m).
Proof.
  intros Hk H. destruct m as [|[k' v'] m]; cbn [Json.put]; [now constructor|].
  inversion H. subst. destruct (String.compare k k'); now constructor.
Qed.

(** [put] keeps the entries in increasing key order. *)
Lemma put_Sorted (k : string) (v : value) (m : list (string * value)) :
  Sorted key_lt m -> Sorted key_lt (Json.put float64 k v m).
Proof.
  induction 1 as [|[k' v'] m Hm IH Hhd]; cbn [Json.put]; [repeat constructor|].
  destruct (String.compare k k') eqn:E.
  - apply String.compare_eq_iff in E. subst k'. constructor; [assumption|].
    destruct Hhd; now constructor.
  - constructor; [now constructor|]. now constructor.
  - constructor; [assumption|]. apply put_HdRel; [|assumption].
    rewrite String.compare_antisym, E. reflexivity.
Qed.

End DecodedFacts.

(** ** Instances of the further properties *)

Lemma pending_flag_replaced_witness :
  loop lower_bytes ["-A"; "-b"; "a=b"] (new_request, NoArg)
  = (set_Header "cookie" "a=b" new_request, NoArg).
Proof.
  exact (pending_flag_replaced lower_bytes new_request NoArg ArgUserAgent ArgCookie
           "-A" "-b" "a=b" eq_refl eq_refl eq_refl).
Defined.

Lemma one_payload_per_flag_witness :
  loop lower_bytes ["species=sloth"; "slothy"; "galactic"] (new_request, ArgCookie)
  = (set_Header "cookie" "species=sloth" new_request, NoArg).
Proof.
  apply (one_payload_per_flag lower_bytes new_request ArgCookie "species=sloth"
           ["slothy"; "galactic"]); [reflexivity|].
  repeat constructor.
Defined.

Lemma head_flag_sets_method_witness :
  Method (fst (loop lower_bytes ["--head"; "-H"; "Accept: a"; "https://x"]
                 (new_request, NoArg))) = "HEAD".
Proof.
  apply (head_flag_sets_method lower_bytes new_request NoArg "--head"
           ["-H"; "Accept: a"; "https://x"]);
    [reflexivity | discriminate | discriminate | repeat constructor].
Defined.

Lemma method_defaults_to_get_witness :
  exists req, parse_example "curl -k -H 'Accept: a' https://x" = inr req /\ Method req = "GET".
Proof.
  eexists. split; [vm_compute; reflexivity|].
  apply (method_defaults_to_get lower_bytes words string number_text number_out
           "curl -k -H 'Accept: a' https://x" ["curl"; "-k"; "-H"; "Accept: a"; "https://x"]);
    [reflexivity | reflexivity | repeat constructor].
Defined.

Lemma skip_tls_iff_insecure_flag_witness :
  exists req, parse_example "curl https://x --insecure" = inr req /\ SkipTLS req = true.
Proof.
  eexists. split; [vm_compute; reflexivity|].
  exact (skip_tls_iff_insecure_flag lower_bytes words string number_text number_out
           "curl https://x --insecure" ["curl"; "https://x"; "--insecure"] _ eq_refl eq_refl).
Defined.

Lemma timeout_needs_max_time_flag_witness :
  exists req, parse_example "curl -k https://x 30" = inr req /\ Timeout req = "".
Proof.
  eexists. split; [vm_compute; reflexivity|].
  apply (timeout_needs_max_time_flag lower_bytes words string number_text number_out
           "curl -k https://x 30" ["curl"; "-k"; "https://x"; "30"]);
    [reflexivity | reflexivity | repeat constructor].
Defined.

Lemma body_needs_data_flag_witness :
  exists req, parse_example "curl -X POST https://x a=1" = inr req /\ Body req = "".
Proof.
  eexists. split; [vm_compute; reflexivity|].
  apply (body_needs_data_flag lower_bytes words string number_text number_out
           "curl -X POST https://x a=1" ["curl"; "-X"; "POST"; "https://x"; "a=1"]);
    [reflexivity | reflexivity | repeat constructor].
Defined.

Lemma data_payloads_joined_witness :
  Body (fst (loop lower_bytes ["-d"; "a=1"; "--data"; "b=2"; "--data-raw"; "c=3"]
               (new_request, NoArg))) = "a=1&b=2&c=3".
Proof.
  apply (data_payloads_joined lower_bytes
           [("-d", "a=1"); ("--data", "b=2"); ("--data-raw", "c=3")] new_request NoArg);
    [|reflexivity].
  repeat constructor; discriminate.
Defined.

Lemma explicit_content_type_wins_witness :
  Header (fst (loop lower_bytes ["-H"; "Content-Type: text/plain"; "-d"; "a=1"]
                 (new_request, NoArg))) !! "content-type" = Some "text/plain"
  /\ Header (fst (loop lower_bytes ["-d"; "a=1"; "-H"; "Content-Type: text/plain"]
                    (new_request, NoArg))) !! "content-type" = Some "text/plain".
Proof.
  apply (explicit_content_type_wins lower_bytes new_request NoArg
           "Content-Type" " text/plain" "a=1"); try reflexivity.
  intros H. repeat (destruct H as [H|H]; [discriminate H|]). exact H.
Defined.


Lemma isURL_validURL_witness :
  isURL "https://x" = validURL "https://x".
Proof.
  destruct (isURL_validURL ["curl"; "https://x"] "https://x") as [_ H].
  apply H. left. right. now left.
Defined.
